(** * cli_args: command-line argument parsers and validators

    A shallow embedding of [resources/cli_args.c] and of the C library
    routines it calls, followed by the properties of the parsers.

    Conventions of the embedding.
    - A C string is the [string] of the characters that precede its
      terminator; a [const char *] that may be null is an [option string].
    - An output parameter [T *out] is a [slot T]: [None] is the null
      pointer, [Some v] a pointer to a cell that currently holds [v].  A
      parser returns its boolean verdict together with the slot as it is
      left by the call.
    - Integers are [Z]; the width of each C type is written out, and
      depends on the data model of the platform where the C type does. *)

From Stdlib Require Import ZArith List String Ascii Bool Lia.
From Stdlib Require Import DecimalString DecimalPos.
From Stdlib Require Import SpecFloat.
From Equations Require Import Equations.
Import ListNotations.

Local Open Scope string_scope.
Local Open Scope Z_scope.

(** ** Integer types of the platform *)

Module CTypes.

(** The data models the header's default types can be built under:
    [int] is 32 bits wide and [long long] 64 in each; [long] and
    [size_t] vary. *)
Inductive data_model : Type := ILP32 | LLP64 | LP64.

Definition LONG_BITS (dm : data_model) : Z :=
  match dm with
  | LP64 => 64
  | ILP32 | LLP64 => 32
  end.

Definition INT_BITS : Z := 32.
Definition LLONG_BITS : Z := 64.

Definition ULONG_MAX (dm : data_model) : Z := 2 ^ LONG_BITS dm - 1.
Definition LONG_MAX (dm : data_model) : Z := 2 ^ (LONG_BITS dm - 1) - 1.
Definition LONG_MIN (dm : data_model) : Z := - 2 ^ (LONG_BITS dm - 1).
Definition ULLONG_MAX : Z := 2 ^ LLONG_BITS - 1.
Definition UINT_MAX : Z := 2 ^ INT_BITS - 1.
Definition INT_MAX : Z := 2 ^ (INT_BITS - 1) - 1.
Definition INT_MIN : Z := - 2 ^ (INT_BITS - 1).
Definition UINT32_MAX : Z := 2 ^ 32 - 1.
Definition UINT64_MAX : Z := 2 ^ 64 - 1.

(** Conversion to an unsigned type of [w] bits: reduction modulo [2^w]. *)
Definition to_unsigned (w : Z) (v : Z) : Z := v mod 2 ^ w.

(** Conversion to a signed type of [w] bits, two's complement. *)
Definition to_signed (w : Z) (v : Z) : Z :=
  (v + 2 ^ (w - 1)) mod 2 ^ w - 2 ^ (w - 1).

(** An output parameter. *)
Definition slot (A : Type) : Type := option A.

(** [if (out != NULL) *out = v;] *)
Definition store {A : Type} (out : slot A) (v : A) : slot A :=
  match out with
  | None => None
  | Some _ => Some v
  end.

End CTypes.
Import CTypes.

(** ** The C library routines the parsers call

    These are not part of the repository: each is written after its
    description in the C standard, for the "C" locale. *)

Module Libc.

Definition char_in (lo hi c : ascii) : bool :=
  (N_of_ascii lo <=? N_of_ascii c)%N && (N_of_ascii c <=? N_of_ascii hi)%N.

(** <ctype.h>, "C" locale. *)
Definition isdigit (c : ascii) : bool := char_in "0" "9" c.

Definition isspace (c : ascii) : bool :=
  (c =? " ")%char || char_in "009" "013" c.

Definition isalnum (c : ascii) : bool :=
  char_in "0" "9" c || char_in "a" "z" c || char_in "A" "Z" c.

(** Value of a character as a digit of some base up to 36. *)
Definition digit_value (c : ascii) : option Z :=
  if char_in "0" "9" c then Some (Z.of_N (N_of_ascii c) - 48)
  else if char_in "a" "z" c then Some (Z.of_N (N_of_ascii c) - 97 + 10)
  else if char_in "A" "Z" c then Some (Z.of_N (N_of_ascii c) - 65 + 10)
  else None.

Definition digit_of (base : Z) (c : ascii) : option Z :=
  match digit_value c with
  | Some d => if d <? base then Some d else None
  | None => None
  end.

Fixpoint skip_space (s : string) : string :=
  match s with
  | String c s' => if isspace c then skip_space s' else s
  | EmptyString => s
  end.

(** Optional sign: whether it is a minus, and what follows it. *)
Definition scan_sign (s : string) : bool * string :=
  match s with
  | String "-" s' => (true, s')
  | String "+" s' => (false, s')
  | _ => (false, s)
  end.

(** The longest run of digits of the base, accumulated into a number that
    is not yet bounded, and the text left after it. *)
Fixpoint scan_digits (base : Z) (s : string) (acc : Z) : Z * string :=
  match s with
  | String c s' =>
      match digit_of base c with
      | Some d => scan_digits base s' (acc * base + d)
      | None => (acc, s)
      end
  | EmptyString => (acc, s)
  end.

(** With base 16 a [0x] or [0X] in front of a hexadecimal digit is
    skipped. *)
Definition skip_hex_prefix (base : Z) (s : string) : string :=
  match s with
  | String "0" (String x (String h s')) =>
      if (base =? 16) && ((x =? "x")%char || (x =? "X")%char)
      then match digit_of 16 h with
           | Some _ => String h s'
           | None => s
           end
      else s
  | _ => s
  end.

(** The subject sequence of the [strto*] integer conversions for an
    explicit [base]: white space, an optional sign, the digits.  [None]
    when there is no digit, else the sign, the magnitude and the text
    where the conversion stopped. *)
Definition scan_integer (nptr : string) (base : Z)
  : option (bool * Z * string) :=
  let '(neg, s) := scan_sign (skip_space nptr) in
  let s := skip_hex_prefix base s in
  match s with
  | String c _ =>
      match digit_of base c with
      | Some _ => let '(v, rest) := scan_digits base s 0 in
                  Some (neg, v, rest)
      | None => None
      end
  | EmptyString => None
  end.

(** Unsigned conversion to a type whose largest value is [umax].  The
    result is the pair of the value and of the text at [*endptr].  A
    magnitude out of range gives [umax] (and [ERANGE], which no caller
    here reads); a minus sign negates within the type. *)
Definition strtou (umax : Z) (nptr : string) (base : Z) : Z * string :=
  match scan_integer nptr base with
  | None => (0, nptr)
  | Some (neg, v, rest) =>
      if v >? umax then (umax, rest)
      else ((if neg then (- v) mod (umax + 1) else v), rest)
  end.

Definition strtoul (dm : data_model) : string -> Z -> Z * string :=
  strtou (ULONG_MAX dm).

Definition strtoull : string -> Z -> Z * string :=
  strtou ULLONG_MAX.

(** Signed conversion to [long]: out of range gives [LONG_MAX] or
    [LONG_MIN]. *)
Definition strtol (dm : data_model) (nptr : string) (base : Z)
  : Z * string :=
  match scan_integer nptr base with
  | None => (0, nptr)
  | Some (neg, v, rest) =>
      if neg
      then ((if v >? - LONG_MIN dm then LONG_MIN dm else - v), rest)
      else ((if v >? LONG_MAX dm then LONG_MAX dm else v), rest)
  end.

(** [strcmp]: negative, zero or positive as the first difference goes,
    characters compared as [unsigned char]; the standard fixes the sign
    only, which is what is returned here. *)
Fixpoint strcmp (s1 s2 : string) : Z :=
  match s1, s2 with
  | EmptyString, EmptyString => 0
  | EmptyString, String _ _ => -1
  | String _ _, EmptyString => 1
  | String c1 s1', String c2 s2' =>
      if (c1 =? c2)%char then strcmp s1' s2'
      else if (N_of_ascii c1 <? N_of_ascii c2)%N then -1 else 1
  end.

Definition strlen (s : string) : Z := Z.of_nat (String.length s).

(** [strchr]: the text from the first occurrence of [c] on, or the null
    pointer. *)
Fixpoint strchr (s : string) (c : ascii) : option string :=
  match s with
  | EmptyString => None
  | String a s' => if (a =? c)%char then Some s else strchr s' c
  end.

(** [memcpy (dst, src, n); dst[n] = '\0';] the first [n] characters. *)
Fixpoint take (n : nat) (s : string) : string :=
  match n, s with
  | S n', String c s' => String c (take n' s')
  | _, _ => EmptyString
  end.

(** *** [strtok]

    The routine keeps, between calls, a pointer into the buffer it was
    first given; that pointer is the state [saved] threaded here. *)

Fixpoint is_delim (delim : string) (c : ascii) : bool :=
  match delim with
  | EmptyString => false
  | String d delim' => (c =? d)%char || is_delim delim' c
  end.

Fixpoint skip_delims (delim s : string) : string :=
  match s with
  | String c s' => if is_delim delim c then skip_delims delim s' else s
  | EmptyString => s
  end.

(** The token at the head of [s] and the text from its delimiter on. *)
Fixpoint scan_token (delim s : string) : string * string :=
  match s with
  | String c s' =>
      if is_delim delim c then (EmptyString, s)
      else let '(tok, rest) := scan_token delim s' in (String c tok, rest)
  | EmptyString => (EmptyString, s)
  end.

(** One call: the token returned (or the null pointer) and the pointer
    saved for the next call.  The delimiter that ends the token is
    overwritten by a terminator, and the scan resumes after it. *)
Definition strtok (str : option string) (delim : string) (saved : string)
  : option string * string :=
  let s := match str with Some s => s | None => saved end in
  match skip_delims delim s with
  | EmptyString => (None, EmptyString)
  | String _ _ as t =>
      let '(tok, rest) := scan_token delim t in
      (Some tok, match rest with
                 | String _ r => r
                 | EmptyString => EmptyString
                 end)
  end.

(** A call that resumes from [saved] leaves less text to scan whenever it
    returns a token. *)
Lemma skip_delims_length (delim s : string) :
  (String.length (skip_delims delim s) <= String.length s)%nat.
Proof.
  induction s as [|c s IH]; simpl; [lia|].
  destruct (is_delim delim c); simpl; lia.
Qed.

Lemma scan_token_length (delim s : string) :
  (String.length (snd (scan_token delim s)) <= String.length s)%nat.
Proof.
  induction s as [|c s IH]; simpl; [lia|].
  destruct (is_delim delim c); simpl; [lia|].
  destruct (scan_token delim s) as [tok rest]; simpl in *; lia.
Qed.

Lemma strtok_resume_length (delim saved : string) :
  (String.length (snd (strtok None delim saved))
   + match fst (strtok None delim saved) with Some _ => 1 | None => 0 end
   <= String.length saved)%nat.
Proof.
  unfold strtok.
  pose proof (skip_delims_length delim saved) as Hs.
  destruct (skip_delims delim saved) as [|c t] eqn:E; simpl; [lia|].
  pose proof (scan_token_length delim (String c t)) as Ht.
  simpl in Ht.
  destruct (is_delim delim c); simpl in *.
  - lia.
  - destruct (scan_token delim t) as [tok rest]; simpl in *.
    destruct rest; simpl in *; lia.
Qed.

(** *** [strtof]

    The value is a binary32 number, held as a [spec_float] of precision
    24 and maximal exponent 128; the conversion rounds to nearest, ties
    to even, and overflows to an infinity. *)

Definition FLT_PREC : Z := 24.
Definition FLT_EMAX : Z := 128.

Definition tolower (c : ascii) : ascii :=
  if char_in "A" "Z" c then ascii_of_N (N_of_ascii c + 32) else c.

(** [word] (in lower case) in front of [s], whatever the case: the text
    after it. *)
Fixpoint scan_word (word s : string) : option string :=
  match word, s with
  | EmptyString, _ => Some s
  | String w word', String c s' =>
      if (tolower c =? w)%char then scan_word word' s' else None
  | String _ _, EmptyString => None
  end.

Fixpoint skip_nchars (s : string) : string :=
  match s with
  | String c s' =>
      if isalnum c || (c =? "_")%char then skip_nchars s' else s
  | EmptyString => s
  end.

(** The optional [(n-char-sequence)] after [nan]. *)
Definition skip_nan_payload (s : string) : string :=
  match s with
  | String "(" s1 =>
      match skip_nchars s1 with
      | String ")" s2 => s2
      | _ => s
      end
  | _ => s
  end.

(** Number of characters between [s] and its suffix [rest]. *)
Definition consumed (s rest : string) : Z := strlen s - strlen rest.

(** Digits with an optional radix point, at least one digit in all: the
    digits read as one integer, the number of them after the point, and
    the text that follows. *)
Definition scan_significand (base : Z) (s : string)
  : option (Z * Z * string) :=
  let '(ip, r1) := scan_digits base s 0 in
  match r1 with
  | String "." r2 =>
      let '(m, r3) := scan_digits base r2 ip in
      if consumed s r1 + consumed r2 r3 =? 0 then None
      else Some (m, consumed r2 r3, r3)
  | _ => if consumed s r1 =? 0 then None else Some (ip, 0, r1)
  end.

(** The optional exponent part, introduced by [mark] in either case; it
    is read only when it has a digit. *)
Definition scan_exponent (mark : ascii) (s : string) : Z * string :=
  match s with
  | String c s1 =>
      if (tolower c =? mark)%char then
        let '(neg, s2) := scan_sign s1 in
        match s2 with
        | String d _ =>
            if isdigit d
            then let '(v, rest) := scan_digits 10 s2 0 in
                 ((if neg then - v else v), rest)
            else (0, s)
        | EmptyString => (0, s)
        end
      else (0, s)
  | EmptyString => (0, s)
  end.

(** [m * 10^e], rounded. *)
Definition decimal_to_float (neg : bool) (m e : Z) : spec_float :=
  match m with
  | Zpos p =>
      if 0 <=? e
      then binary_round FLT_PREC FLT_EMAX neg (p * Z.to_pos (10 ^ e)) 0
      else SFdiv FLT_PREC FLT_EMAX
             (S754_finite neg p 0)
             (S754_finite false (Z.to_pos (10 ^ (- e))) 0)
  | _ => S754_zero neg
  end.

(** [m * 2^e], rounded. *)
Definition binary_to_float (neg : bool) (m e : Z) : spec_float :=
  match m with
  | Zpos p => binary_round FLT_PREC FLT_EMAX neg p e
  | _ => S754_zero neg
  end.

Definition scan_decimal_float (neg : bool) (s : string)
  : option (spec_float * string) :=
  match scan_significand 10 s with
  | Some (m, frac, r) =>
      let '(e, rest) := scan_exponent "e" r in
      Some (decimal_to_float neg m (e - frac), rest)
  | None => None
  end.

Definition scan_hex_float (neg : bool) (s : string)
  : option (spec_float * string) :=
  match s with
  | String "0" (String x s1) =>
      if (tolower x =? "x")%char then
        match scan_significand 16 s1 with
        | Some (m, frac, r) =>
            let '(e, rest) := scan_exponent "p" r in
            Some (binary_to_float neg m (e - 4 * frac), rest)
        | None => None
        end
      else None
  | _ => None
  end.

Definition scan_inf_nan (neg : bool) (s : string)
  : option (spec_float * string) :=
  match scan_word "infinity" s with
  | Some rest => Some (S754_infinity neg, rest)
  | None =>
      match scan_word "inf" s with
      | Some rest => Some (S754_infinity neg, rest)
      | None =>
          match scan_word "nan" s with
          | Some rest => Some (S754_nan, skip_nan_payload rest)
          | None => None
          end
      end
  end.

Definition first_of {A : Type} (a b : option A) : option A :=
  match a with
  | Some _ => a
  | None => b
  end.

(** The value and the text at [*endptr]; with no conversion the value is
    zero and [*endptr] is [nptr]. *)
Definition strtof (nptr : string) : spec_float * string :=
  let '(neg, s) := scan_sign (skip_space nptr) in
  match first_of (scan_inf_nan neg s)
          (first_of (scan_hex_float neg s) (scan_decimal_float neg s)) with
  | Some r => r
  | None => (S754_zero false, nptr)
  end.

(** The comparisons [<] and [>] of two [float]s: false when either is a
    NaN. *)
Definition flt (x y : spec_float) : bool := SFltb x y.
Definition fgt (x y : spec_float) : bool := SFltb y x.

End Libc.
Import Libc.

(** ** The parsers of cli_args.c *)

Module CliArgs.

Definition is_nul (p : string) : bool :=
  match p with
  | EmptyString => true
  | String _ _ => false
  end.

Fixpoint all_isdigit (p : string) : bool :=
  match p with
  | EmptyString => true
  | String c p' => if negb (isdigit c) then false else all_isdigit p'
  end.

Definition is_digits (str : option string) : bool :=
  match str with
  | None => false
  | Some EmptyString => false
  | Some s => all_isdigit s
  end.

Definition is_valid_int (str : option string) : bool :=
  match str with
  | None => false
  | Some EmptyString => false
  | Some (String c s' as s) =>
      let str := if (c =? "-")%char || (c =? "+")%char then s' else s in
      is_digits (Some str)
  end.

Fixpoint all_hex (p : string) : bool :=
  match p with
  | EmptyString => true
  | String c p' =>
      if negb (char_in "0" "9" c || char_in "a" "f" c || char_in "A" "F" c)
      then false
      else all_hex p'
  end.

Definition is_hex_digits (str : option string) : bool :=
  match str with
  | None => false
  | Some EmptyString => false
  | Some s => all_hex s
  end.

(** Folding of [iequals]: only the letters [A] to [Z] are moved. *)
Definition fold_case (c : ascii) : ascii :=
  if char_in "A" "Z" c then ascii_of_N (N_of_ascii c + 32) else c.

Fixpoint iequals (s1 s2 : string) : bool :=
  match s1, s2 with
  | String c1 s1', String c2 s2' =>
      if negb (fold_case c1 =? fold_case c2)%char then false
      else iequals s1' s2'
  | EmptyString, EmptyString => true
  | _, _ => false
  end.

Definition parse_uint32_in_range (dm : data_model) (arg : option string)
    (min max : Z) (out : slot Z) : bool * slot Z :=
  match arg with
  | None | Some EmptyString => (false, out)
  | Some arg =>
      if negb (is_digits (Some arg)) then (false, out) else
      let '(val, endptr) := strtoul dm arg 10 in
      if negb (is_nul endptr) then (false, out) else
      if (val <? min) || (val >? max) then (false, out) else
      (true, store out (to_unsigned 32 val))
  end.

Definition parse_uint64_in_range (arg : option string)
    (min max : Z) (out : slot Z) : bool * slot Z :=
  match arg with
  | None | Some EmptyString => (false, out)
  | Some arg =>
      if negb (is_digits (Some arg)) then (false, out) else
      let '(val, endptr) := strtoull arg 10 in
      if negb (is_nul endptr) then (false, out) else
      if (val <? min) || (val >? max) then (false, out) else
      (true, store out (to_unsigned 64 val))
  end.

Definition parse_int_in_range (dm : data_model) (arg : option string)
    (min max : Z) (out : slot Z) : bool * slot Z :=
  match arg with
  | None | Some EmptyString => (false, out)
  | Some arg =>
      if negb (is_valid_int (Some arg)) then (false, out) else
      let '(val, endptr) := strtol dm arg 10 in
      if negb (is_nul endptr) then (false, out) else
      if (val <? min) || (val >? max) then (false, out) else
      (true, store out (to_signed INT_BITS val))
  end.

(** The loop over the table; [options] holds the entries [options[i]],
    [options[i+1]], ... up to the last of the [num_options] ones. *)
Fixpoint find_option (arg : string) (options : list string) (i : Z)
  : option Z :=
  match options with
  | [] => None
  | o :: options' =>
      if strcmp arg o =? 0 then Some i
      else find_option arg options' (i + 1)
  end.

(** [options] is the table of its [num_options] entries. *)
Definition parse_string_option (arg : option string)
    (options : list string) (out_index : slot Z) : bool * slot Z :=
  match arg with
  | None => (false, out_index)
  | Some arg =>
      match find_option arg options 0 with
      | Some i => (true, store out_index (to_unsigned INT_BITS i))
      | None => (false, out_index)
      end
  end.

Definition ip_loop_measure (token : option string) (saved : string) : nat :=
  (String.length saved + match token with Some _ => 1 | None => 0 end)%nat.

(** The [while (token != NULL)] loop of [parse_ip_address], from the
    token and the [strtok] state it is entered with: the final [count]
    and [valid]. *)
Equations? ip_loop (dm : data_model) (token : option string)
    (saved : string) (count : Z) : Z * bool
    by wf (ip_loop_measure token saved) lt :=
  ip_loop dm None saved count := (count, true);
  ip_loop dm (Some token) saved count
    with negb (is_digits (Some token)) => {
    | true := (count, false);
    | false
        with (let part := fst (strtol dm token 10) in
              (part <? 0) || (part >? 255)) => {
        | true := (count, false);
        | false := ip_loop dm (fst (strtok None "." saved))
                     (snd (strtok None "." saved)) (count + 1) } }.
Proof.
  unfold ip_loop_measure.
  pose proof (strtok_resume_length "." saved).
  destruct (fst (strtok None "." saved)); lia.
Qed.

Definition parse_ip_address (dm : data_model) (arg : option string) : bool :=
  match arg with
  | None | Some EmptyString => false
  | Some arg =>
      if strlen arg >? 15 then false else
      let ip_copy := arg in
      let '(token, saved) := strtok (Some ip_copy) "." EmptyString in
      let '(count, valid) := ip_loop dm token saved 0 in
      if negb (count =? 4) then false else valid
  end.

Definition parse_ip_address_with_netmask (dm : data_model)
    (arg : option string) : bool :=
  match arg with
  | None | Some EmptyString => false
  | Some arg =>
      match strchr arg "/" with
      | None => false
      | Some slash =>
          let ip_len := strlen arg - strlen slash in
          if (ip_len =? 0) || (ip_len >? 15) then false else
          let ip_part := take (Z.to_nat ip_len) arg in
          if negb (parse_ip_address dm (Some ip_part)) then false else
          let netmask_part :=
            match slash with
            | String _ r => r
            | EmptyString => EmptyString
            end in
          if is_nul netmask_part then false else
          if negb (is_digits (Some netmask_part)) then false else
          let '(netmask, endptr) := strtol dm netmask_part 10 in
          if negb (is_nul endptr) then false else
          if (netmask <? 0) || (netmask >? 32) then false else
          true
      end
  end.

Definition parse_bool (arg : option string) (out : slot bool)
  : bool * slot bool :=
  match arg with
  | None => (false, out)
  | Some arg =>
      if iequals arg "true" || iequals arg "1" || iequals arg "yes"
      then (true, store out true)
      else if iequals arg "false" || iequals arg "0" || iequals arg "no"
      then (true, store out false)
      else (false, out)
  end.

Definition parse_float_in_range (arg : option string)
    (min max : spec_float) (out : slot spec_float)
  : bool * slot spec_float :=
  match arg with
  | None | Some EmptyString => (false, out)
  | Some arg =>
      let '(val, endptr) := strtof arg in
      if negb (is_nul endptr) then (false, out) else
      if flt val min || fgt val max then (false, out) else
      (true, store out val)
  end.

Definition parse_hex_in_range (dm : data_model) (arg : option string)
    (min max : Z) (out : slot Z) : bool * slot Z :=
  match arg with
  | None | Some EmptyString => (false, out)
  | Some arg =>
      let arg :=
        match arg with
        | String "0" (String x arg') =>
            if (x =? "x")%char || (x =? "X")%char then arg' else arg
        | _ => arg
        end in
      if negb (is_hex_digits (Some arg)) then (false, out) else
      let '(val, endptr) := strtoul dm arg 16 in
      if negb (is_nul endptr) then (false, out) else
      if (val <? min) || (val >? max) then (false, out) else
      (true, store out val)
  end.

(** [custom_parser_t]: the callback receives the argument and the output
    pointer, and may write through it. *)
Definition custom_parser_t (A : Type) : Type :=
  string -> slot A -> bool * slot A.

Definition parse_custom {A : Type} (arg : option string)
    (validator : option (custom_parser_t A)) (out : slot A)
  : bool * slot A :=
  match arg, validator with
  | Some arg, Some validator => validator arg out
  | _, _ => (false, out)
  end.

End CliArgs.
Import CliArgs.

(** ** Notions the properties are stated with *)

Module Spec.

(** The canonical decimal rendering of an integer: no leading zero, a
    minus sign in front of a negative number. *)
Definition decimal (v : Z) : string :=
  NilZero.string_of_int (Z.to_int v).

(** The characters of a string. *)
Definition chars (s : string) : list ascii := list_ascii_of_string s.

Definition decimal_digits : list ascii :=
  ["0"; "1"; "2"; "3"; "4"; "5"; "6"; "7"; "8"; "9"]%char.

Definition hex_digits : list ascii :=
  (decimal_digits ++ ["a"; "b"; "c"; "d"; "e"; "f";
                      "A"; "B"; "C"; "D"; "E"; "F"]%char)%list.

Definition member (c : ascii) (l : list ascii) : bool :=
  existsb (Ascii.eqb c) l.

(** Every character of [s] is in the class [l]. *)
Definition all_in (l : list ascii) (s : string) : bool :=
  forallb (fun c => member c l) (chars s).

(** The number a string of decimal digits denotes. *)
Definition decimal_value (s : string) : Z :=
  fold_left (fun acc c => acc * 10 + (Z.of_N (N_of_ascii c) - 48))
            (chars s) 0.

(** The pieces of [s] between the occurrences of [d]; two occurrences in
    a row, or one at either end, give an empty piece. *)
Fixpoint split_on (d : ascii) (s : string) : list string :=
  match s with
  | EmptyString => [EmptyString]
  | String c s' =>
      if (c =? d)%char then EmptyString :: split_on d s'
      else match split_on d s' with
           | t :: ts => String c t :: ts
           | [] => [String c EmptyString]
           end
  end.

Definition nonempty (t : string) : bool :=
  match t with
  | EmptyString => false
  | String _ _ => true
  end.

(** A non-empty run of decimal digits that denotes a number of
    [[0, 255]]. *)
Definition octet (t : string) : bool :=
  nonempty t && all_in decimal_digits t && (decimal_value t <=? 255).

(** An IPv4 address as the specification words it: at most 15
    characters, exactly four pieces between the dots, each an octet. *)
Definition dotted_quad (s : string) : bool :=
  (Z.of_nat (String.length s) <=? 15)
  && Nat.eqb (List.length (split_on "." s)) 4
  && forallb octet (split_on "." s).

(** The same with the empty pieces dropped before they are counted. *)
Definition lax_dotted_quad (s : string) : bool :=
  (Z.of_nat (String.length s) <=? 15)
  && Nat.eqb (List.length (filter nonempty (split_on "." s))) 4
  && forallb octet (filter nonempty (split_on "." s)).

(** ASCII case folding: the upper-case letters go to their lower-case
    counterparts, every other character stays. *)
Definition upper_letters : list ascii :=
  ["A"; "B"; "C"; "D"; "E"; "F"; "G"; "H"; "I"; "J"; "K"; "L"; "M";
   "N"; "O"; "P"; "Q"; "R"; "S"; "T"; "U"; "V"; "W"; "X"; "Y"; "Z"]%char.

Definition lower_letters : list ascii :=
  ["a"; "b"; "c"; "d"; "e"; "f"; "g"; "h"; "i"; "j"; "k"; "l"; "m";
   "n"; "o"; "p"; "q"; "r"; "s"; "t"; "u"; "v"; "w"; "x"; "y"; "z"]%char.

Definition lower_char (c : ascii) : ascii :=
  match find (fun p => (fst p =? c)%char)
             (combine upper_letters lower_letters) with
  | Some p => snd p
  | None => c
  end.

Fixpoint lower (s : string) : string :=
  match s with
  | EmptyString => EmptyString
  | String c s' => String (lower_char c) (lower s')
  end.

(** Position of a character in a list. *)
Fixpoint index_of (c : ascii) (l : list ascii) : option nat :=
  match l with
  | [] => None
  | a :: l' => if (a =? c)%char then Some 0%nat
               else option_map S (index_of c l')
  end.

(** The value of a hexadecimal digit, in either case. *)
Definition hex_digit_value (c : ascii) : Z :=
  match index_of (lower_char c)
          ["0"; "1"; "2"; "3"; "4"; "5"; "6"; "7"; "8"; "9";
           "a"; "b"; "c"; "d"; "e"; "f"]%char with
  | Some n => Z.of_nat n
  | None => 0
  end.

(** The number a string of hexadecimal digits denotes. *)
Definition hex_value (s : string) : Z :=
  fold_left (fun acc c => acc * 16 + hex_digit_value c) (chars s) 0.

(** The characters of a dotted address. *)
Definition address_chars : list ascii :=
  (decimal_digits ++ ["."%char])%list.

(** [v] lies in [[min, max]]. *)
Definition within (min max v : Z) : bool := (min <=? v) && (v <=? max).

(** The number a non-empty string of decimal digits denotes. *)
Definition unsigned_literal (d : string) : option Z :=
  if nonempty d && all_in decimal_digits d then Some (decimal_value d)
  else None.

(** The number denoted by decimal digits behind an optional sign. *)
Definition signed_literal (s : string) : option Z :=
  match s with
  | String "-" d => option_map Z.opp (unsigned_literal d)
  | String "+" d => unsigned_literal d
  | _ => unsigned_literal s
  end.

End Spec.
Import Spec.

(** ** Auxiliary definitions of the proofs *)

Module Aux.

(** What is left of the argument once [parse_hex_in_range] has stepped
    over the prefix. *)
Definition after_prefix (arg : string) : string :=
  match arg with
  | String "0" (String x arg') =>
      if (x =? "x")%char || (x =? "X")%char then arg' else arg
  | _ => arg
  end.

(** The tokens [strtok] finds in [s] with the dot as delimiter. *)
Definition tokens (s : string) : list string :=
  filter nonempty (split_on "." s).

(** The test one token goes through in the loop. *)
Definition token_ok (dm : data_model) (token : string) : bool :=
  if negb (is_digits (Some token)) then false
  else negb (let part := fst (strtol dm token 10) in
             (part <? 0) || (part >? 255)).

(** The loop, over a list of tokens. *)
Fixpoint ip_list_loop (dm : data_model) (toks : list string) (count : Z)
  : Z * bool :=
  match toks with
  | [] => (count, true)
  | t :: toks' =>
      if token_ok dm t then ip_list_loop dm toks' (count + 1)
      else (count, false)
  end.

(** A table whose first match lies at index [2^32]. *)
Definition long_table : list string :=
  repeat "x" (Z.to_nat (2 ^ 32)) ++ ["y"].

End Aux.
Import Aux.

(** ** Facts about the library routines *)

Section LibcFacts.

Lemma strcmp_refl (s : string) : strcmp s s = 0.
Proof.
  induction s as [|c s IH]; simpl; [reflexivity|].
  rewrite Ascii.eqb_refl. exact IH.
Qed.

Lemma strcmp_eq (s1 s2 : string) : strcmp s1 s2 = 0 <-> s1 = s2.
Proof.
  split; [|intros ->; apply strcmp_refl].
  revert s2; induction s1 as [|c1 s1 IH]; intros [|c2 s2]; simpl;
    try reflexivity; try discriminate.
  destruct (Ascii.eqb_spec c1 c2) as [->|_].
  - intros H. f_equal. now apply IH.
  - destruct (N_of_ascii c1 <? N_of_ascii c2)%N; discriminate.
Qed.

End LibcFacts.

(** ** Output slots *)

Section OutputSlot.

(** Splits every [if] and every destructuring [let] of a parser's body. *)
Ltac split_branches :=
  repeat match goal with
         | |- context [let '(_, _) := ?p in _] => destruct p
         | |- context [if ?b then _ else _] => destruct b
         | |- context [match ?x with Some _ => _ | None => _ end] =>
             destruct x
         end.

Ltac slot_cases :=
  cbv beta iota; split_branches; simpl; congruence.

Lemma uint32_frame dm arg min max out :
  fst (parse_uint32_in_range dm arg min max out) = false ->
  snd (parse_uint32_in_range dm arg min max out) = out.
Proof. unfold parse_uint32_in_range. destruct arg as [[|c s]|]; slot_cases. Qed.

Lemma uint64_frame arg min max out :
  fst (parse_uint64_in_range arg min max out) = false ->
  snd (parse_uint64_in_range arg min max out) = out.
Proof. unfold parse_uint64_in_range. destruct arg as [[|c s]|]; slot_cases. Qed.

Lemma int_frame dm arg min max out :
  fst (parse_int_in_range dm arg min max out) = false ->
  snd (parse_int_in_range dm arg min max out) = out.
Proof. unfold parse_int_in_range. destruct arg as [[|c s]|]; slot_cases. Qed.

Lemma float_frame arg min max out :
  fst (parse_float_in_range arg min max out) = false ->
  snd (parse_float_in_range arg min max out) = out.
Proof. unfold parse_float_in_range. destruct arg as [[|c s]|]; slot_cases. Qed.

Lemma hex_frame dm arg min max out :
  fst (parse_hex_in_range dm arg min max out) = false ->
  snd (parse_hex_in_range dm arg min max out) = out.
Proof. unfold parse_hex_in_range. destruct arg as [[|c s]|]; slot_cases. Qed.

Lemma bool_frame arg out :
  fst (parse_bool arg out) = false -> snd (parse_bool arg out) = out.
Proof. unfold parse_bool. destruct arg; slot_cases. Qed.

Lemma string_option_frame arg options out :
  fst (parse_string_option arg options out) = false ->
  snd (parse_string_option arg options out) = out.
Proof. unfold parse_string_option. destruct arg; slot_cases. Qed.

Ltac verdict_cases := cbv beta iota; split_branches; reflexivity.

Lemma uint32_verdict dm arg min max out out' :
  fst (parse_uint32_in_range dm arg min max out) =
  fst (parse_uint32_in_range dm arg min max out').
Proof.
  unfold parse_uint32_in_range. destruct arg as [[|c s]|]; verdict_cases.
Qed.

Lemma uint64_verdict arg min max out out' :
  fst (parse_uint64_in_range arg min max out) =
  fst (parse_uint64_in_range arg min max out').
Proof.
  unfold parse_uint64_in_range. destruct arg as [[|c s]|]; verdict_cases.
Qed.

Lemma int_verdict dm arg min max out out' :
  fst (parse_int_in_range dm arg min max out) =
  fst (parse_int_in_range dm arg min max out').
Proof.
  unfold parse_int_in_range. destruct arg as [[|c s]|]; verdict_cases.
Qed.

Lemma float_verdict arg min max out out' :
  fst (parse_float_in_range arg min max out) =
  fst (parse_float_in_range arg min max out').
Proof.
  unfold parse_float_in_range. destruct arg as [[|c s]|]; verdict_cases.
Qed.

Lemma hex_verdict dm arg min max out out' :
  fst (parse_hex_in_range dm arg min max out) =
  fst (parse_hex_in_range dm arg min max out').
Proof.
  unfold parse_hex_in_range. destruct arg as [[|c s]|]; verdict_cases.
Qed.

Lemma bool_verdict arg out out' :
  fst (parse_bool arg out) = fst (parse_bool arg out').
Proof. unfold parse_bool. destruct arg; verdict_cases. Qed.

Lemma string_option_verdict arg options out out' :
  fst (parse_string_option arg options out) =
  fst (parse_string_option arg options out').
Proof. unfold parse_string_option. destruct arg; verdict_cases. Qed.

End OutputSlot.

(** ** Decimal text *)

Section DecimalText.

Lemma digit_char (c : ascii) :
  isdigit c = true ->
  isspace c = false /\ c <> "-"%char /\ c <> "+"%char /\
  digit_of 10 c = Some (Z.of_N (N_of_ascii c) - 48) /\
  0 <= Z.of_N (N_of_ascii c) - 48 <= 9.
Proof.
  destruct c as [[|] [|] [|] [|] [|] [|] [|] [|]];
    vm_compute; intros H; try discriminate H;
    repeat split; discriminate.
Qed.

Lemma isdigit_member (c : ascii) :
  isdigit c = member c decimal_digits.
Proof.
  destruct c as [[|] [|] [|] [|] [|] [|] [|] [|]]; reflexivity.
Qed.

Lemma all_isdigit_all_in (s : string) :
  all_isdigit s = all_in decimal_digits s.
Proof.
  unfold all_in, chars.
  induction s as [|c s IH]; [reflexivity|].
  cbn [all_isdigit list_ascii_of_string forallb].
  rewrite isdigit_member, IH.
  now destruct (member c decimal_digits).
Qed.

(** On a text of digits the scan reads everything. *)
Lemma scan_digits_all (s : string) (acc : Z) :
  all_isdigit s = true ->
  scan_digits 10 s acc =
  (fold_left (fun a c => a * 10 + (Z.of_N (N_of_ascii c) - 48))
             (chars s) acc, "").
Proof.
  revert acc; induction s as [|c s IH]; intros acc; simpl; [reflexivity|].
  destruct (isdigit c) eqn:Hc; simpl; [|discriminate].
  intros Hs. destruct (digit_char c Hc) as (_ & _ & _ & -> & _).
  now apply IH.
Qed.

Lemma skip_hex_prefix_decimal (s : string) : skip_hex_prefix 10 s = s.
Proof.
  destruct s as [|c [|x [|h s]]]; try reflexivity;
    unfold skip_hex_prefix;
    destruct c as [[|] [|] [|] [|] [|] [|] [|] [|]]; reflexivity.
Qed.

Lemma scan_integer_digits (s : string) :
  is_digits (Some s) = true ->
  scan_integer s 10 = Some (false, decimal_value s, "").
Proof.
  destruct s as [|c s]; simpl; [discriminate|].
  destruct (isdigit c) eqn:Hc; simpl; [|discriminate].
  intros Hs.
  destruct (digit_char c Hc) as (Hsp & Hm & Hp & Hd & _).
  unfold scan_integer. simpl skip_space. rewrite Hsp.
  assert (scan_sign (String c s) = (false, String c s)) as ->.
  { unfold scan_sign.
    destruct c as [[|] [|] [|] [|] [|] [|] [|] [|]];
      try reflexivity; congruence. }
  rewrite skip_hex_prefix_decimal, Hd.
  rewrite scan_digits_all by (simpl; now rewrite Hc).
  reflexivity.
Qed.

Lemma strtou_digits (umax : Z) (s : string) :
  is_digits (Some s) = true ->
  strtou umax s 10 =
  ((if decimal_value s >? umax then umax else decimal_value s), "").
Proof.
  intros H. unfold strtou. rewrite (scan_integer_digits s H).
  now destruct (decimal_value s >? umax).
Qed.

Lemma strtol_digits (dm : data_model) (s : string) :
  is_digits (Some s) = true ->
  strtol dm s 10 =
  ((if decimal_value s >? LONG_MAX dm then LONG_MAX dm
    else decimal_value s), "").
Proof.
  intros H. unfold strtol. now rewrite (scan_integer_digits s H).
Qed.

Lemma scan_integer_minus (s : string) :
  is_digits (Some s) = true ->
  scan_integer (String "-" s) 10 = Some (true, decimal_value s, "").
Proof.
  intros H. pose proof (scan_integer_digits s H) as Hs.
  destruct s as [|c s]; [discriminate|].
  assert (isdigit c = true) as Hc.
  { simpl in H. now destruct (isdigit c). }
  destruct (digit_char c Hc) as (Hsp & _).
  unfold scan_integer in *. simpl skip_space in *. rewrite Hsp in Hs.
  cbn [scan_sign].
  destruct (scan_sign (String c s)) as [neg t] eqn:E.
  assert (t = String c s) as ->.
  { unfold scan_sign in E.
    destruct (digit_char c Hc) as (_ & Hm & Hp & _).
    destruct c as [[|] [|] [|] [|] [|] [|] [|] [|]];
      try congruence. }
  destruct (skip_hex_prefix 10 (String c s)) as [|c' s']; [discriminate|].
  destruct (digit_of 10 c'); [|discriminate].
  destruct (scan_digits 10 (String c' s') 0). congruence.
Qed.

(** The rendering of a positive number: its digits, and what they
    denote. *)
Lemma rendering_all_digits (d : Decimal.uint) :
  all_isdigit (NilEmpty.string_of_uint d) = true.
Proof. induction d; simpl; auto. Qed.

Lemma rendering_fold (d : Decimal.uint) (p : positive) :
  fold_left (fun a c => a * 10 + (Z.of_N (N_of_ascii c) - 48))
            (chars (NilEmpty.string_of_uint d)) (Zpos p) =
  Zpos (Pos.of_uint_acc d p).
Proof.
  revert p; induction d; intros p; [reflexivity | ..];
    cbn [NilEmpty.string_of_uint chars list_ascii_of_string fold_left
         Pos.of_uint_acc];
    unfold chars in IHd;
    match goal with
    | |- fold_left _ _ ?a = _ =>
        match type of IHd with
        | forall q, _ = Zpos (Pos.of_uint_acc _ q) =>
            match goal with
            | |- _ = Zpos (Pos.of_uint_acc _ ?q) =>
                replace a with (Zpos q) by (vm_compute N_of_ascii; lia);
                apply IHd
            end
        end
    end.
Qed.

Lemma rendering_value (d : Decimal.uint) :
  decimal_value (NilEmpty.string_of_uint d) = Z.of_N (Pos.of_uint d).
Proof.
  unfold decimal_value.
  induction d; [reflexivity | exact IHd | ..];
    cbn [NilEmpty.string_of_uint chars list_ascii_of_string fold_left
         Pos.of_uint];
    match goal with
    | |- _ = Z.of_N (Npos (Pos.of_uint_acc _ ?q)) =>
        change (Z.of_N (Npos (Pos.of_uint_acc d q)))
          with (Zpos (Pos.of_uint_acc d q));
        rewrite <- rendering_fold; reflexivity
    end.
Qed.

Lemma rendering_nonempty (p : positive) :
  NilEmpty.string_of_uint (Pos.to_uint p) <> "".
Proof.
  pose proof (Unsigned.to_uint_nonnil p) as H.
  destruct (Pos.to_uint p); simpl; congruence.
Qed.

Lemma decimal_pos (p : positive) :
  decimal (Zpos p) = NilEmpty.string_of_uint (Pos.to_uint p) /\
  is_digits (Some (decimal (Zpos p))) = true /\
  decimal_value (decimal (Zpos p)) = Zpos p.
Proof.
  assert (decimal (Zpos p) = NilEmpty.string_of_uint (Pos.to_uint p)) as E.
  { unfold decimal. simpl. unfold NilZero.string_of_uint.
    pose proof (Unsigned.to_uint_nonnil p) as H.
    destruct (Pos.to_uint p); congruence. }
  rewrite E. split; [reflexivity|]. split.
  - pose proof (rendering_nonempty p) as Hne.
    pose proof (rendering_all_digits (Pos.to_uint p)) as Hd.
    unfold is_digits.
    destruct (NilEmpty.string_of_uint (Pos.to_uint p)); congruence.
  - rewrite rendering_value, Unsigned.of_to. reflexivity.
Qed.

Lemma decimal_neg (p : positive) :
  decimal (Zneg p) = String "-" (decimal (Zpos p)).
Proof. reflexivity. Qed.

Lemma decimal_nonneg (v : Z) :
  0 <= v ->
  is_digits (Some (decimal v)) = true /\ decimal_value (decimal v) = v.
Proof.
  destruct v as [|p|p]; intros H; [split; reflexivity| |lia].
  apply decimal_pos.
Qed.

End DecimalText.

(** ** Rendering, then parsing *)

Section RoundTrip.

Lemma range_check_passes (v min max : Z) :
  min <= v <= max -> (v <? min) || (v >? max) = false.
Proof. intros H. apply orb_false_iff. split; lia. Qed.

Lemma range_check_vacuous (v min max : Z) :
  min > max -> (v <? min) || (v >? max) = true.
Proof. intros H. apply orb_true_iff. lia. Qed.

Lemma ULONG_MAX_ge (dm : data_model) : UINT32_MAX <= ULONG_MAX dm.
Proof. destruct dm; vm_compute; discriminate. Qed.

Lemma LONG_range (dm : data_model) :
  LONG_MIN dm <= INT_MIN /\ INT_MAX <= LONG_MAX dm.
Proof. destruct dm; vm_compute; split; discriminate. Qed.

Lemma uint32_round_trip dm v min max out :
  0 <= v <= UINT32_MAX -> min <= v <= max ->
  parse_uint32_in_range dm (Some (decimal v)) min max out
  = (true, store out v).
Proof.
  intros Hv Hr. destruct (decimal_nonneg v) as (Hd & Hval); [lia|].
  unfold parse_uint32_in_range.
  destruct (decimal v) as [|c s] eqn:E; [discriminate|].
  rewrite Hd. cbn [negb].
  unfold strtoul. rewrite strtou_digits by exact Hd. rewrite Hval.
  pose proof (ULONG_MAX_ge dm).
  replace (v >? ULONG_MAX dm) with false by lia.
  cbn [is_nul negb]. rewrite range_check_passes by exact Hr.
  unfold to_unsigned. rewrite Z.mod_small; [reflexivity|].
  unfold UINT32_MAX in Hv. lia.
Qed.

Lemma uint64_round_trip v min max out :
  0 <= v <= UINT64_MAX -> min <= v <= max ->
  parse_uint64_in_range (Some (decimal v)) min max out
  = (true, store out v).
Proof.
  intros Hv Hr. destruct (decimal_nonneg v) as (Hd & Hval); [lia|].
  unfold parse_uint64_in_range.
  destruct (decimal v) as [|c s] eqn:E; [discriminate|].
  rewrite Hd. cbn [negb].
  unfold strtoull. rewrite strtou_digits by exact Hd. rewrite Hval.
  change ULLONG_MAX with UINT64_MAX.
  replace (v >? UINT64_MAX) with false by lia.
  cbn [is_nul negb]. rewrite range_check_passes by exact Hr.
  unfold to_unsigned. rewrite Z.mod_small; [reflexivity|].
  unfold UINT64_MAX in Hv. lia.
Qed.

Lemma to_signed_int (v : Z) :
  INT_MIN <= v <= INT_MAX -> to_signed INT_BITS v = v.
Proof.
  unfold to_signed, INT_MIN, INT_MAX, INT_BITS. intros H.
  rewrite Z.mod_small; lia.
Qed.

Lemma int_round_trip dm v min max out :
  INT_MIN <= v <= INT_MAX -> min <= v <= max ->
  parse_int_in_range dm (Some (decimal v)) min max out
  = (true, store out v).
Proof.
  intros Hv Hr. pose proof (LONG_range dm) as (Hlo & Hhi).
  unfold parse_int_in_range.
  destruct v as [|p|p].
  - cbn -[strtol]. assert (strtol dm "0" 10 = (0, "")) as ->
      by (destruct dm; reflexivity).
    cbn [is_nul negb]. rewrite range_check_passes by exact Hr.
    reflexivity.
  - destruct (decimal_pos p) as (_ & Hd & Hval).
    destruct (decimal (Zpos p)) as [|c s] eqn:E; [discriminate|].
    assert (is_valid_int (Some (String c s)) = true) as ->.
    { unfold is_valid_int.
      assert (isdigit c = true) as Hc
        by (simpl in Hd; now destruct (isdigit c)).
      destruct (digit_char c Hc) as (_ & Hm & Hp & _).
      apply Ascii.eqb_neq in Hm, Hp. now rewrite Hm, Hp. }
    cbn [negb]. rewrite strtol_digits by exact Hd. rewrite Hval.
    replace (Zpos p >? LONG_MAX dm) with false by lia.
    cbn [is_nul negb]. rewrite range_check_passes by exact Hr.
    now rewrite to_signed_int.
  - rewrite decimal_neg.
    destruct (decimal_pos p) as (_ & Hd & Hval).
    assert (is_valid_int (Some (String "-" (decimal (Zpos p)))) = true)
      as -> by exact Hd.
    cbn [negb]. unfold strtol.
    rewrite scan_integer_minus by exact Hd. rewrite Hval.
    replace (Zpos p >? - LONG_MIN dm) with false by lia.
    cbn [is_nul negb].
    change (- Zpos p) with (Zneg p).
    rewrite range_check_passes by exact Hr.
    now rewrite to_signed_int.
Qed.

End RoundTrip.

(** ** Hexadecimal arguments *)

Section Hex.

Lemma hex_member (c : ascii) :
  member c hex_digits = true ->
  (c =? "x")%char = false /\ (c =? "X")%char = false.
Proof.
  destruct c as [[|] [|] [|] [|] [|] [|] [|] [|]];
    vm_compute; intros H; try discriminate H; split; reflexivity.
Qed.

Lemma parse_hex_after_prefix dm c s min max out :
  parse_hex_in_range dm (Some (String c s)) min max out =
  let arg := after_prefix (String c s) in
  if negb (is_hex_digits (Some arg)) then (false, out) else
  let '(val, endptr) := strtoul dm arg 16 in
  if negb (is_nul endptr) then (false, out) else
  if (val <? min) || (val >? max) then (false, out) else
  (true, store out val).
Proof. reflexivity. Qed.

Lemma after_prefix_0x (s : string) : after_prefix ("0x" ++ s) = s.
Proof. reflexivity. Qed.

Lemma after_prefix_bare (s : string) :
  all_in hex_digits s = true -> after_prefix s = s.
Proof.
  destruct s as [|c [|x s]]; intros H; try reflexivity.
  - unfold after_prefix.
    destruct c as [[|] [|] [|] [|] [|] [|] [|] [|]]; reflexivity.
  - unfold all_in, chars in H. cbn [list_ascii_of_string forallb] in H.
    apply andb_true_iff in H as (_ & H).
    apply andb_true_iff in H as (Hx & _).
    destruct (hex_member x Hx) as (E1 & E2).
    unfold after_prefix. rewrite E1, E2.
    destruct c as [[|] [|] [|] [|] [|] [|] [|] [|]]; reflexivity.
Qed.

Lemma hex_prefix_optional dm s min max out :
  all_in hex_digits s = true ->
  parse_hex_in_range dm (Some ("0x" ++ s)) min max out =
  parse_hex_in_range dm (Some s) min max out.
Proof.
  intros H. change ("0x" ++ s) with (String "0" (String "x" s)).
  rewrite parse_hex_after_prefix.
  change (after_prefix (String "0" (String "x" s))) with s.
  destruct s as [|c s]; [reflexivity|].
  rewrite parse_hex_after_prefix, (after_prefix_bare _ H).
  reflexivity.
Qed.

Lemma strtoul_1A dm : strtoul dm "1A" 16 = (26, "").
Proof. destruct dm; reflexivity. Qed.

Lemma hex_1A dm min max out :
  min <= 26 <= max ->
  parse_hex_in_range dm (Some "0x1A") min max out = (true, store out 26) /\
  parse_hex_in_range dm (Some "1A") min max out = (true, store out 26).
Proof.
  intros H.
  assert (parse_hex_in_range dm (Some "1A") min max out
          = (true, store out 26)) as E.
  { rewrite parse_hex_after_prefix.
    change (after_prefix "1A") with "1A".
    change (is_hex_digits (Some "1A")) with true. cbn [negb].
    rewrite strtoul_1A. cbn [is_nul negb].
    now rewrite range_check_passes. }
  split; [|exact E].
  rewrite <- E. now apply (hex_prefix_optional dm "1A").
Qed.

Lemma strtoul_123abc dm : strtoul dm "123abc" 16 = (1194684, "").
Proof. destruct dm; reflexivity. Qed.

Lemma hex_123abc dm min max out :
  parse_hex_in_range dm (Some "123abc") min max out =
  if (1194684 <? min) || (1194684 >? max) then (false, out)
  else (true, store out 1194684).
Proof.
  rewrite parse_hex_after_prefix.
  change (after_prefix "123abc") with "123abc".
  change (is_hex_digits (Some "123abc")) with true. cbn [negb].
  rewrite strtoul_123abc. reflexivity.
Qed.

End Hex.

(** ** Bounds given in the wrong order *)

Section VacuousRange.

Lemma uint32_vacuous dm arg min max out :
  min > max -> fst (parse_uint32_in_range dm arg min max out) = false.
Proof.
  intros H. unfold parse_uint32_in_range.
  destruct arg as [[|c s]|]; try reflexivity.
  destruct (negb _); [reflexivity|].
  destruct (strtoul _ _ _) as [val endptr].
  destruct (negb _); [reflexivity|].
  now rewrite range_check_vacuous.
Qed.

Lemma uint64_vacuous arg min max out :
  min > max -> fst (parse_uint64_in_range arg min max out) = false.
Proof.
  intros H. unfold parse_uint64_in_range.
  destruct arg as [[|c s]|]; try reflexivity.
  destruct (negb _); [reflexivity|].
  destruct (strtoull _ _) as [val endptr].
  destruct (negb _); [reflexivity|].
  now rewrite range_check_vacuous.
Qed.

Lemma int_vacuous dm arg min max out :
  min > max -> fst (parse_int_in_range dm arg min max out) = false.
Proof.
  intros H. unfold parse_int_in_range.
  destruct arg as [[|c s]|]; try reflexivity.
  destruct (negb _); [reflexivity|].
  destruct (strtol _ _ _) as [val endptr].
  destruct (negb _); [reflexivity|].
  now rewrite range_check_vacuous.
Qed.

Lemma hex_vacuous dm arg min max out :
  min > max -> fst (parse_hex_in_range dm arg min max out) = false.
Proof.
  intros H. destruct arg as [[|c s]|]; try reflexivity.
  rewrite parse_hex_after_prefix. cbv zeta.
  destruct (negb _); [reflexivity|].
  destruct (strtoul _ _ _) as [val endptr].
  destruct (negb _); [reflexivity|].
  now rewrite range_check_vacuous.
Qed.

(** The order of [float]s, NaN apart: nothing lies in [[lo, hi]] when
    [hi < lo]. *)
Lemma float_between_nan (val lo hi : spec_float) :
  flt hi lo = true -> flt val lo = false -> fgt val hi = false ->
  val = S754_nan.
Proof.
  unfold flt, fgt, SFltb, SFcompare.
  destruct val as [sv|sv| |sv mv ev], lo as [sl|sl| |sl ml el],
           hi as [sh|sh| |sh mh eh];
    try reflexivity; try discriminate;
    repeat match goal with s : bool |- _ => destruct s end;
    try discriminate;
    repeat match goal with
           | |- context [Z.compare ?a ?b] => destruct (Z.compare_spec a b)
           | |- context [Pos.compare_cont Eq ?a ?b] =>
               change (Pos.compare_cont Eq a b) with (Pos.compare a b);
               destruct (Pos.compare_spec a b)
           end; simpl; intros Ha Hb Hc;
    try discriminate Ha; try discriminate Hb; try discriminate Hc;
    exfalso; lia.
Qed.

(** With [min > max] the float parser succeeds on NaN only. *)
Lemma float_vacuous arg min max out :
  fgt min max = true ->
  fst (parse_float_in_range (Some arg) min max out) = true ->
  fst (strtof arg) = S754_nan.
Proof.
  intros H. unfold parse_float_in_range.
  destruct arg as [|c s]; [discriminate|].
  destruct (strtof (String c s)) as [val endptr].
  destruct (negb _); [discriminate|].
  destruct (flt val min) eqn:E1; [discriminate|].
  destruct (fgt val max) eqn:E2; [discriminate|].
  intros _. now apply (float_between_nan val min max).
Qed.

Lemma float_nan_any_range min max out :
  parse_float_in_range (Some "nan") min max out = (true, store out S754_nan).
Proof. destruct min, max; reflexivity. Qed.

End VacuousRange.

(** ** The empty argument *)

Section EmptyArgument.

Lemma find_option_none (arg : string) (options : list string) (i : Z) :
  find_option arg options i = None <-> ~ In arg options.
Proof.
  revert i; induction options as [|o options IH]; intros i; simpl.
  - tauto.
  - destruct (Z.eqb_spec (strcmp arg o) 0) as [E|E].
    + apply strcmp_eq in E. subst o. split; [discriminate|tauto].
    + rewrite IH. rewrite strcmp_eq in E. split.
      * intros H [->|H']; tauto.
      * tauto.
Qed.

Lemma string_option_succeeds (arg : string) (options : list string) out :
  fst (parse_string_option (Some arg) options out) = true <->
  In arg options.
Proof.
  unfold parse_string_option.
  destruct (find_option arg options 0) eqn:E; simpl.
  - split; [intros _|reflexivity].
    destruct (in_dec string_dec arg options) as [H|H]; [exact H|].
    apply find_option_none with (i := 0) in H. congruence.
  - apply find_option_none in E. split; [discriminate|tauto].
Qed.

End EmptyArgument.

(** ** The enumerated option *)

Section StringOption.

Lemma find_option_first (arg : string) (options : list string) (i : Z)
    (k : nat) :
  nth_error options k = Some arg ->
  (forall j, (j < k)%nat -> nth_error options j <> Some arg) ->
  find_option arg options i = Some (i + Z.of_nat k).
Proof.
  revert i k; induction options as [|o options IH]; intros i k Hk Hmin.
  - destruct k; discriminate.
  - simpl. destruct k as [|k].
    + injection Hk as ->. rewrite strcmp_refl. simpl. f_equal. lia.
    + destruct (Z.eqb_spec (strcmp arg o) 0) as [E|E].
      * apply strcmp_eq in E. subst o.
        exfalso. apply (Hmin 0%nat); [lia|reflexivity].
      * rewrite (IH (i + 1) k).
        -- f_equal. lia.
        -- exact Hk.
        -- intros j Hj. apply (Hmin (S j)). lia.
Qed.

Lemma string_option_index (arg : string) (options : list string) out
    (k : nat) :
  nth_error options k = Some arg ->
  (forall j, (j < k)%nat -> nth_error options j <> Some arg) ->
  parse_string_option (Some arg) options out =
  (true, store out (Z.of_nat k mod 2 ^ 32)).
Proof.
  intros Hk Hmin. unfold parse_string_option.
  rewrite (find_option_first arg options 0 k Hk Hmin).
  reflexivity.
Qed.

Lemma long_table_first_match :
  nth_error long_table (Z.to_nat (2 ^ 32)) = Some "y" /\
  (forall j, (j < Z.to_nat (2 ^ 32))%nat ->
             nth_error long_table j <> Some "y").
Proof.
  unfold long_table. generalize (Z.to_nat (2 ^ 32)) as n. intros n. split.
  - rewrite nth_error_app2 by (rewrite repeat_length; lia).
    rewrite repeat_length, Nat.sub_diag. reflexivity.
  - intros j Hj.
    rewrite nth_error_app1 by (rewrite repeat_length; lia).
    rewrite nth_error_repeat by exact Hj. discriminate.
Qed.

End StringOption.

(** ** IPv4 addresses *)

Section IPv4.

Lemma is_delim_dot (c : ascii) : is_delim "." c = (c =? ".")%char.
Proof. simpl. apply orb_false_r. Qed.

Lemma scan_token_split (s : string) :
  split_on "." s =
  fst (scan_token "." s)
  :: match snd (scan_token "." s) with
     | EmptyString => []
     | String _ r => split_on "." r
     end.
Proof.
  induction s as [|c s IH]; [reflexivity|].
  cbn [split_on scan_token]. rewrite is_delim_dot.
  destruct (c =? ".")%char; [reflexivity|].
  rewrite IH. destruct (scan_token "." s) as [tok rest]. reflexivity.
Qed.

Lemma skip_delims_tokens (s : string) :
  tokens (skip_delims "." s) = tokens s.
Proof.
  unfold tokens. induction s as [|c s IH]; [reflexivity|].
  cbn [skip_delims split_on]. rewrite is_delim_dot.
  destruct (c =? ".")%char eqn:E; [exact IH|].
  cbn [split_on]. now rewrite E.
Qed.

Lemma skip_delims_head (s : string) (c : ascii) (t : string) :
  skip_delims "." s = String c t -> (c =? ".")%char = false.
Proof.
  induction s as [|a s IH]; [discriminate|].
  cbn [skip_delims]. rewrite is_delim_dot.
  destruct (a =? ".")%char eqn:E; [exact IH|].
  intros [= <- _]. exact E.
Qed.

(** What one call of [strtok] takes off the list of tokens. *)
Lemma strtok_tokens (str : option string) (saved : string) :
  let s := match str with Some s => s | None => saved end in
  match strtok str "." saved with
  | (None, _) => tokens s = []
  | (Some tok, saved') => tokens s = tok :: tokens saved'
  end.
Proof.
  intros s. unfold strtok. fold s.
  rewrite <- (skip_delims_tokens s).
  destruct (skip_delims "." s) as [|c t] eqn:E; [reflexivity|].
  pose proof (skip_delims_head s c t E) as Hc.
  unfold tokens at 1. rewrite (scan_token_split (String c t)).
  cbn [scan_token]. rewrite is_delim_dot, Hc.
  destruct (scan_token "." t) as [tok rest].
  cbn [fst snd filter nonempty]. f_equal.
  destruct rest; reflexivity.
Qed.

Lemma ip_loop_list (dm : data_model) (token : option string)
    (saved : string) (count : Z) :
  ip_loop dm token saved count =
  ip_list_loop dm
    (match token with
     | Some t => t :: tokens saved
     | None => []
     end) count.
Proof.
  funelim (ip_loop dm token saved count); cbn [ip_list_loop];
    unfold token_ok;
    repeat match goal with
           | H : _ = true |- _ => rewrite H
           | H : _ = false |- _ => rewrite H
           end;
    cbn [negb]; try reflexivity.
  match goal with IH : ip_loop _ _ _ _ = ip_list_loop _ _ _ |- _ =>
    rewrite IH end.
  pose proof (strtok_tokens None saved) as Ht. cbv zeta in Ht.
  destruct (strtok None "." saved) as [[tok|] saved']; cbn [fst snd];
    rewrite Ht; reflexivity.
Qed.

Lemma ip_list_loop_spec (dm : data_model) (toks : list string) (count : Z) :
  snd (ip_list_loop dm toks count) = forallb (token_ok dm) toks /\
  (forallb (token_ok dm) toks = true ->
   fst (ip_list_loop dm toks count) = count + Z.of_nat (List.length toks)).
Proof.
  revert count; induction toks as [|t toks IH]; intros count.
  - simpl. split; [reflexivity|intros _; lia].
  - cbn [ip_list_loop forallb List.length].
    destruct (token_ok dm t); cbn [andb].
    + destruct (IH (count + 1)) as (-> & Hc). split; [reflexivity|].
      intros H. rewrite (Hc H). lia.
    + split; [reflexivity|discriminate].
Qed.

Lemma decimal_value_nonneg (s : string) :
  all_isdigit s = true -> 0 <= decimal_value s.
Proof.
  unfold decimal_value, chars.
  assert (forall acc, 0 <= acc -> all_isdigit s = true ->
            0 <= fold_left
                   (fun a c => a * 10 + (Z.of_N (N_of_ascii c) - 48))
                   (list_ascii_of_string s) acc) as H.
  { induction s as [|c s IH]; intros acc Hacc; simpl; [intros _; lia|].
    destruct (isdigit c) eqn:Hc; simpl; [|discriminate].
    intros Hs. apply IH; [|exact Hs].
    destruct (digit_char c Hc) as (_ & _ & _ & _ & Hd). lia. }
  apply H. lia.
Qed.

Lemma LONG_MAX_ge_255 (dm : data_model) : 255 < LONG_MAX dm.
Proof. destruct dm; reflexivity. Qed.

Lemma token_ok_octet (dm : data_model) (t : string) :
  token_ok dm t = octet t.
Proof.
  unfold token_ok, octet.
  destruct (is_digits (Some t)) eqn:Hd; cbn [negb].
  - rewrite strtol_digits by exact Hd. cbn [fst].
    assert (nonempty t = true /\ all_isdigit t = true) as (-> & Ha)
      by (destruct t; [discriminate|split; [reflexivity|exact Hd]]).
    rewrite <- all_isdigit_all_in, Ha. cbn [andb].
    pose proof (decimal_value_nonneg t Ha).
    pose proof (LONG_MAX_ge_255 dm).
    destruct (decimal_value t >? LONG_MAX dm) eqn:E.
    + replace (decimal_value t <=? 255) with false by lia.
      replace (LONG_MAX dm <? 0) with false by lia.
      replace (LONG_MAX dm >? 255) with true by lia. reflexivity.
    + replace (decimal_value t <? 0) with false by lia.
      cbn [orb].
      destruct (Z.leb_spec (decimal_value t) 255);
        [replace (decimal_value t >? 255) with false by lia
        |replace (decimal_value t >? 255) with true by lia];
        reflexivity.
  - destruct t as [|c s]; [reflexivity|].
    cbn [nonempty andb]. rewrite <- all_isdigit_all_in.
    cbn [is_digits] in Hd. now rewrite Hd.
Qed.

Lemma tokens_ok_octets (dm : data_model) (toks : list string) :
  forallb (token_ok dm) toks = forallb octet toks.
Proof.
  induction toks as [|t toks IH]; [reflexivity|].
  cbn [forallb]. now rewrite token_ok_octet, IH.
Qed.

(** The validator accepts exactly the lax dotted quads. *)
Lemma parse_ip_address_lax (dm : data_model) (arg : string) :
  parse_ip_address dm (Some arg) = lax_dotted_quad arg.
Proof.
  unfold lax_dotted_quad. fold (tokens arg).
  destruct arg as [|c s]; [reflexivity|].
  cbn [parse_ip_address]. unfold strlen.
  destruct (Z.leb_spec (Z.of_nat (String.length (String c s))) 15) as [L|L].
  2:{ replace (Z.of_nat (String.length (String c s)) >? 15)
        with true by lia. reflexivity. }
  replace (Z.of_nat (String.length (String c s)) >? 15)
    with false by lia.
  cbv zeta.
  pose proof (strtok_tokens (Some (String c s)) "") as Ht. cbv zeta in Ht.
  destruct (strtok (Some (String c s)) "." "") as [token saved].
  rewrite ip_loop_list.
  set (toks := match token with Some t => t :: tokens saved | None => [] end).
  assert (tokens (String c s) = toks) as ->
    by (subst toks; destruct token; exact Ht).
  destruct (ip_list_loop_spec dm toks 0) as (Hv & Hc).
  destruct (ip_list_loop dm toks 0) as [count valid].
  cbn [fst snd] in Hv, Hc. subst valid.
  rewrite tokens_ok_octets in *.
  cbn [andb].
  destruct (forallb octet toks) eqn:E.
  - rewrite (Hc eq_refl), andb_true_r.
    destruct (Nat.eqb_spec (List.length toks) 4) as [->|N].
    + reflexivity.
    + replace (0 + Z.of_nat (List.length toks) =? 4) with false by lia.
      reflexivity.
  - rewrite andb_false_r. now destruct (negb (count =? 4)).
Qed.

Lemma octets_nonempty (l : list string) :
  forallb octet l = true -> filter nonempty l = l.
Proof.
  induction l as [|t l IH]; [reflexivity|].
  cbn [forallb filter]. intros H.
  apply andb_true_iff in H as (Ht & Hl).
  unfold octet in Ht.
  destruct (nonempty t); [|discriminate]. now rewrite IH.
Qed.

(** Every address of the specification is accepted. *)
Lemma dotted_quad_accepted (dm : data_model) (arg : string) :
  dotted_quad arg = true -> parse_ip_address dm (Some arg) = true.
Proof.
  rewrite parse_ip_address_lax. unfold dotted_quad, lax_dotted_quad.
  intros H. apply andb_true_iff in H as (H & Ho).
  now rewrite (octets_nonempty _ Ho), H, Ho.
Qed.

End IPv4.

(** ** The examples of the specification *)

Section Examples.

Example range_256 :
  parse_uint32_in_range LP64 (Some "256") 0 255 (Some 0) = (false, Some 0).
Proof. reflexivity. Qed.

Example range_255 :
  parse_uint32_in_range LP64 (Some "255") 0 255 (Some 0) = (true, Some 255).
Proof. reflexivity. Qed.

Example ip_four_octets : parse_ip_address LP64 (Some "192.168.1.1") = true.
Proof. reflexivity. Qed.

Example ip_three_octets : parse_ip_address LP64 (Some "192.168.1") = false.
Proof. reflexivity. Qed.

Example ip_octet_256 : parse_ip_address LP64 (Some "256.1.1.1") = false.
Proof. reflexivity. Qed.

Example ip_with_mask :
  parse_ip_address LP64 (Some "192.168.1.1/24") = false /\
  parse_ip_address_with_netmask LP64 (Some "192.168.1.1/24") = true /\
  parse_ip_address_with_netmask LP64 (Some "192.168.1.1/33") = false.
Proof. repeat split. Qed.

Example bool_keywords :
  map (fun a => parse_bool (Some a) None)
      ["TRUE"; "Yes"; "1"; "False"; "no"; "0"; "maybe"]
  = [(true, None); (true, None); (true, None); (true, None);
     (true, None); (true, None); (false, None)] /\
  map (fun a => snd (parse_bool (Some a) (Some false))) ["TRUE"; "Yes"; "1"]
  = [Some true; Some true; Some true] /\
  map (fun a => snd (parse_bool (Some a) (Some true))) ["False"; "no"; "0"]
  = [Some false; Some false; Some false].
Proof. repeat split. Qed.

Example hex_0xg1 :
  parse_hex_in_range LP64 (Some "0xg1") 0 (ULONG_MAX LP64) (Some 0)
  = (false, Some 0).
Proof. reflexivity. Qed.

Example option_green :
  parse_string_option (Some "green") ["red"; "green"; "blue"] (Some 7)
  = (true, Some 1) /\
  parse_string_option (Some "Green") ["red"; "green"; "blue"] (Some 7)
  = (false, Some 7).
Proof. split; reflexivity. Qed.

Example float_literals :
  parse_float_in_range (Some "-1.5e3")
    (S754_infinity true) (S754_infinity false) (Some S754_nan)
  = (true, Some (S754_finite true 12288000 (-13))) /\
  fst (strtof "0.1") = S754_finite false 13421773 (-27) /\
  fst (strtof "3.4028235e38") = S754_finite false 16777215 104 /\
  fst (strtof "1e39") = S754_infinity false /\
  strtof "0x1.8p1" = (S754_finite false 12582912 (-22), "") /\
  strtof " inf" = (S754_infinity false, "") /\
  strtof "1e" = (S754_finite false 8388608 (-23), "e").
Proof. repeat split. Qed.

End Examples.

(** ** Numbers too large for 64 bits *)

Section Overflow.

(** A run of digits that denotes more than [UINT64_MAX] is read as
    [UINT64_MAX]. *)
Lemma uint64_overflow_saturates (s : string) min max out :
  is_digits (Some s) = true ->
  decimal_value s > UINT64_MAX ->
  parse_uint64_in_range (Some s) min max out =
  if (UINT64_MAX <? min) || (UINT64_MAX >? max) then (false, out)
  else (true, store out UINT64_MAX).
Proof.
  intros Hd Hv. unfold parse_uint64_in_range.
  destruct s as [|c s]; [discriminate|].
  rewrite Hd. cbn [negb].
  unfold strtoull. rewrite strtou_digits by exact Hd.
  change ULLONG_MAX with UINT64_MAX.
  replace (decimal_value (String c s) >? UINT64_MAX) with true by lia.
  cbn [is_nul negb].
  destruct ((UINT64_MAX <? min) || (UINT64_MAX >? max)); reflexivity.
Qed.

End Overflow.

(** ** The properties claimed of the parsers *)

(** C1.  The claim: [parse_ip_address] succeeds exactly on the strings of
    at most 15 characters that split on the dot into four non-empty
    pieces, each a run of digits denoting a number of [[0, 255]].  The
    code departs from it: [strtok] steps over every dot of a run of dots,
    so that ["1..2.3.4"], whose second piece is empty, is accepted on
    every platform. *)
Theorem ip_address_accepts_empty_piece :
  forall dm : data_model,
    parse_ip_address dm (Some "1..2.3.4") = true /\
    split_on "." "1..2.3.4" = ["1"; ""; "2"; "3"; "4"] /\
    dotted_quad "1..2.3.4" = false.
Proof.
  intros dm. split; [|split; reflexivity].
  rewrite parse_ip_address_lax. reflexivity.
Qed.

(** C2.  A parser that returns false leaves its output slot with the
    value it held before the call; this holds of the seven parsers that
    take an output slot, for every argument, bounds and option table. *)
Theorem failure_leaves_output_untouched :
  (forall dm arg min max out,
      fst (parse_uint32_in_range dm arg min max out) = false ->
      snd (parse_uint32_in_range dm arg min max out) = out) /\
  (forall arg min max out,
      fst (parse_uint64_in_range arg min max out) = false ->
      snd (parse_uint64_in_range arg min max out) = out) /\
  (forall dm arg min max out,
      fst (parse_int_in_range dm arg min max out) = false ->
      snd (parse_int_in_range dm arg min max out) = out) /\
  (forall arg min max out,
      fst (parse_float_in_range arg min max out) = false ->
      snd (parse_float_in_range arg min max out) = out) /\
  (forall dm arg min max out,
      fst (parse_hex_in_range dm arg min max out) = false ->
      snd (parse_hex_in_range dm arg min max out) = out) /\
  (forall arg out,
      fst (parse_bool arg out) = false ->
      snd (parse_bool arg out) = out) /\
  (forall arg options out,
      fst (parse_string_option arg options out) = false ->
      snd (parse_string_option arg options out) = out).
Proof.
  repeat split; intros.
  - now apply uint32_frame.
  - now apply uint64_frame.
  - now apply int_frame.
  - now apply float_frame.
  - now apply hex_frame.
  - now apply bool_frame.
  - now apply string_option_frame.
Qed.

Lemma failure_leaves_output_untouched_witness :
  snd (parse_uint32_in_range LP64 (Some "256") 0 255 (Some 7)) = Some 7 /\
  snd (parse_uint64_in_range (Some "12x") 0 99 (Some 7)) = Some 7 /\
  snd (parse_int_in_range LP64 (Some "-") (-9) 9 (Some 7)) = Some 7 /\
  snd (parse_float_in_range (Some "1.5e")
         (S754_zero false) (S754_infinity false) (Some S754_nan))
  = Some S754_nan /\
  snd (parse_hex_in_range LP64 (Some "0xg1") 0 255 (Some 7)) = Some 7 /\
  snd (parse_bool (Some "maybe") (Some true)) = Some true /\
  snd (parse_string_option (Some "Green") ["red"; "green"; "blue"] (Some 7))
  = Some 7.
Proof.
  destruct failure_leaves_output_untouched
    as (H1 & H2 & H3 & H4 & H5 & H6 & H7).
  split; [apply H1; reflexivity|].
  split; [apply H2; reflexivity|].
  split; [apply H3; reflexivity|].
  split; [apply H4; reflexivity|].
  split; [apply H5; reflexivity|].
  split; [apply H6; reflexivity|].
  apply H7; reflexivity.
Defined.

(** C3, as stated, fails: ["123abc"] is made of hexadecimal digits only,
    and the hexadecimal parser succeeds on it when the bounds allow. *)
Lemma hex_accepts_123abc :
  parse_hex_in_range LP64 (Some "123abc") 0 (ULONG_MAX LP64) (Some 0)
  = (true, Some 1194684).
Proof. reflexivity. Qed.

(** C3, amended.  Whatever the bounds, the unsigned 32-bit, unsigned
    64-bit, signed and float parsers fail on ["123abc"]; the hexadecimal
    parser reads it as [0x123abc = 1194684], and succeeds exactly when
    [min <= 1194684 <= max]. *)
Theorem trailing_garbage_123abc :
  (forall dm min max out,
      parse_uint32_in_range dm (Some "123abc") min max out = (false, out)) /\
  (forall min max out,
      parse_uint64_in_range (Some "123abc") min max out = (false, out)) /\
  (forall dm min max out,
      parse_int_in_range dm (Some "123abc") min max out = (false, out)) /\
  (forall min max out,
      parse_float_in_range (Some "123abc") min max out = (false, out)) /\
  (forall dm min max out,
      parse_hex_in_range dm (Some "123abc") min max out =
      if (min <=? 1194684) && (1194684 <=? max)
      then (true, store out 1194684) else (false, out)).
Proof.
  repeat split; intros; try reflexivity.
  rewrite hex_123abc.
  destruct (Z.leb_spec min 1194684), (Z.leb_spec 1194684 max); cbn [andb].
  - now rewrite range_check_passes.
  - replace (1194684 >? max) with true by lia. now rewrite orb_true_r.
  - now replace (1194684 <? min) with true by lia.
  - now replace (1194684 <? min) with true by lia.
Qed.

(** C4.  The claim: a run of digits whose value exceeds [2^64 - 1] fails
    [parse_uint64_in_range] whatever the bounds.  The code departs from
    it: [strtoull] answers [ULLONG_MAX] for such a text and the error it
    signals is not read, so that [2^64] written in decimal is accepted as
    [2^64 - 1] when the upper bound is [2^64 - 1]. *)
Theorem uint64_overflow_accepted :
  is_digits (Some "18446744073709551616") = true /\
  decimal_value "18446744073709551616" = UINT64_MAX + 1 /\
  parse_uint64_in_range (Some "18446744073709551616") 0 UINT64_MAX (Some 0)
  = (true, Some UINT64_MAX).
Proof. repeat split. Qed.

(** C5, as stated, fails: the string-option parser compares the empty
    argument with the entries like any other, and finds it in a table
    that has an empty entry. *)
Lemma string_option_accepts_empty_argument :
  parse_string_option (Some "") ["red"; ""] (Some 7) = (true, Some 1).
Proof. reflexivity. Qed.

(** C5, amended.  On the empty string the five range parsers (whatever
    the bounds), the two IPv4 validators and [parse_bool] fail and write
    nothing; [parse_string_option] succeeds exactly when the table has an
    empty entry; [parse_custom] returns what the validator returns, and
    fails when there is none. *)
Theorem empty_argument :
  (forall dm min max out,
      parse_uint32_in_range dm (Some "") min max out = (false, out)) /\
  (forall min max out,
      parse_uint64_in_range (Some "") min max out = (false, out)) /\
  (forall dm min max out,
      parse_int_in_range dm (Some "") min max out = (false, out)) /\
  (forall min max out,
      parse_float_in_range (Some "") min max out = (false, out)) /\
  (forall dm min max out,
      parse_hex_in_range dm (Some "") min max out = (false, out)) /\
  (forall dm, parse_ip_address dm (Some "") = false) /\
  (forall dm, parse_ip_address_with_netmask dm (Some "") = false) /\
  (forall out, parse_bool (Some "") out = (false, out)) /\
  (forall options out,
      fst (parse_string_option (Some "") options out) = true <->
      In "" options) /\
  (forall (A : Type) (validator : custom_parser_t A) out,
      parse_custom (Some "") (Some validator) out = validator "" out) /\
  (forall (A : Type) (out : slot A),
      parse_custom (Some "") None out = (false, out)).
Proof.
  do 8 (split; [intros; reflexivity|]).
  split; [|split; intros; reflexivity].
  intros options out. apply string_option_succeeds.
Qed.

(** C6.  The claim: with [min > max] every range parser fails on every
    argument.  It holds of the four integer parsers
    ([uint32_vacuous], [uint64_vacuous], [int_vacuous], [hex_vacuous]).
    The float parser departs from it: a NaN is neither below [min] nor
    above [max], so that ["nan"] is accepted with the bounds [1] and [0],
    and NaN is written. *)
Theorem float_nan_passes_vacuous_range :
  let one := S754_finite false 8388608 (-23) in
  let zero := S754_zero false in
  fgt one zero = true /\
  parse_float_in_range (Some "nan") one zero (Some zero)
  = (true, Some S754_nan).
Proof. split; reflexivity. Qed.

(** C7.  For every integer [v] of the target type (unsigned 32-bit,
    unsigned 64-bit, [int]) and all bounds with [min <= v <= max],
    parsing the canonical decimal rendering of [v] succeeds and writes
    exactly [v] to the output slot. *)
Theorem decimal_round_trip :
  (forall dm v min max out,
      0 <= v <= UINT32_MAX -> min <= v <= max ->
      parse_uint32_in_range dm (Some (decimal v)) min max out
      = (true, store out v)) /\
  (forall v min max out,
      0 <= v <= UINT64_MAX -> min <= v <= max ->
      parse_uint64_in_range (Some (decimal v)) min max out
      = (true, store out v)) /\
  (forall dm v min max out,
      INT_MIN <= v <= INT_MAX -> min <= v <= max ->
      parse_int_in_range dm (Some (decimal v)) min max out
      = (true, store out v)).
Proof.
  repeat split; intros.
  - now apply uint32_round_trip.
  - now apply uint64_round_trip.
  - now apply int_round_trip.
Qed.

Lemma decimal_round_trip_witness :
  parse_uint32_in_range LP64 (Some (decimal 4294967295)) 0 4294967295
    (Some 0) = (true, Some 4294967295) /\
  parse_uint64_in_range (Some (decimal 18446744073709551615)) 1
    18446744073709551615 (Some 0) = (true, Some 18446744073709551615) /\
  parse_int_in_range ILP32 (Some (decimal (-2147483648))) (-2147483648) 0
    (Some 0) = (true, Some (-2147483648)).
Proof.
  destruct decimal_round_trip as (H32 & H64 & Hint).
  split; [|split].
  - apply (H32 LP64 4294967295 0 4294967295 (Some 0));
      unfold UINT32_MAX; lia.
  - apply (H64 18446744073709551615 1 18446744073709551615 (Some 0));
      unfold UINT64_MAX; lia.
  - apply (Hint ILP32 (-2147483648) (-2147483648) 0 (Some 0));
      unfold INT_MIN, INT_MAX, INT_BITS; lia.
Defined.

(** C8.  For every string [s] of hexadecimal digits and all bounds,
    [parse_hex_in_range] gives the same verdict and the same output on
    ["0x" ++ s] and on [s]; ["0x1A"] and ["1A"] both give 26 when the
    bounds allow it. *)
Theorem hex_prefix_is_optional :
  (forall dm s min max out,
      s <> "" -> all_in hex_digits s = true ->
      parse_hex_in_range dm (Some ("0x" ++ s)) min max out =
      parse_hex_in_range dm (Some s) min max out) /\
  (forall dm min max out,
      min <= 26 <= max ->
      parse_hex_in_range dm (Some "0x1A") min max out
      = (true, store out 26) /\
      parse_hex_in_range dm (Some "1A") min max out
      = (true, store out 26)).
Proof.
  split; intros.
  - now apply hex_prefix_optional.
  - now apply hex_1A.
Qed.

Lemma hex_prefix_is_optional_witness :
  parse_hex_in_range LP64 (Some ("0x" ++ "fF09")) 0 65535 (Some 0) =
  parse_hex_in_range LP64 (Some "fF09") 0 65535 (Some 0) /\
  parse_hex_in_range LP64 (Some "fF09") 0 65535 (Some 0)
  = (true, Some 65289) /\
  parse_hex_in_range LLP64 (Some "0x1A") 0 255 (Some 0) = (true, Some 26) /\
  parse_hex_in_range LLP64 (Some "1A") 0 255 (Some 0) = (true, Some 26).
Proof.
  destruct hex_prefix_is_optional as (Hs & H1A).
  split; [|split].
  - apply (Hs LP64 "fF09" 0 65535 (Some 0)); [discriminate|reflexivity].
  - reflexivity.
  - apply (H1A LLP64 0 255 (Some 0)). lia.
Defined.

(** C9.  The claim: [parse_string_option] succeeds exactly when some
    entry of the table equals the argument, and then reports the
    smallest index at which the entry equals it.  The code departs from
    it where [size_t] is wider than [unsigned int]: the index is written
    through a conversion to [unsigned int].  In a table of [2^32 + 1]
    entries whose only match is the last one, the smallest matching
    index is [2^32] and the index written is 0, which is not the matching
    entry's index the header promises. *)
Lemma string_option_index_wraps :
  nth_error long_table (Z.to_nat (2 ^ 32)) = Some "y" /\
  (forall j, (j < Z.to_nat (2 ^ 32))%nat ->
             nth_error long_table j <> Some "y") /\
  Z.of_nat (Z.to_nat (2 ^ 32)) = 4294967296 /\
  parse_string_option (Some "y") long_table (Some 7) = (true, Some 0).
Proof.
  destruct long_table_first_match as (Hk & Hmin).
  split; [exact Hk|]. split; [exact Hmin|].
  assert (Z.of_nat (Z.to_nat (2 ^ 32)) = 4294967296) as E
    by (rewrite Z2Nat.id; [reflexivity|discriminate]).
  split; [exact E|].
  rewrite (string_option_index "y" long_table (Some 7) _ Hk Hmin).
  rewrite E. reflexivity.
Qed.

(** X18.  [parse_string_option] succeeds exactly when some entry of the
    table equals the argument, byte for byte; when the smallest index at
    which the entry equals the argument is below [2^32], that index is
    the one written, later matches notwithstanding and whatever the
    length of the table. *)
Theorem string_option_first_match :
  forall (arg : string) (options : list string) (out : slot Z),
    (fst (parse_string_option (Some arg) options out) = true <->
     In arg options) /\
    (forall k : nat,
        Z.of_nat k < 2 ^ 32 ->
        nth_error options k = Some arg ->
        (forall j, (j < k)%nat -> nth_error options j <> Some arg) ->
        parse_string_option (Some arg) options out =
        (true, store out (Z.of_nat k))).
Proof.
  intros arg options out. split.
  - apply string_option_succeeds.
  - intros k Hlt Hk Hmin.
    rewrite (string_option_index arg options out k Hk Hmin).
    rewrite Z.mod_small; [reflexivity|lia].
Qed.

Lemma string_option_first_match_witness :
  parse_string_option (Some "green") ["red"; "green"; "blue"; "green"]
    (Some 7) = (true, Some 1).
Proof.
  destruct (string_option_first_match "green"
              ["red"; "green"; "blue"; "green"] (Some 7)) as (_ & H).
  apply (H 1%nat).
  - reflexivity.
  - reflexivity.
  - intros j Hj. destruct j as [|j]; [discriminate|lia].
Defined.

(** C10, as stated, fails for [parse_custom], which also takes an output
    pointer: it hands the pointer to the callback, whose answer is the
    verdict.  A validator that answers whether the pointer is non-null
    makes the call succeed with a slot and fail without one. *)
Lemma custom_verdict_follows_slot :
  let validator : custom_parser_t Z :=
    fun _ out => (match out with Some _ => true | None => false end, out) in
  fst (parse_custom (Some "x") (Some validator) (Some 0)) = true /\
  fst (parse_custom (Some "x") (Some validator) None) = false.
Proof. split; reflexivity. Qed.

(** C10, amended.  The verdict of each of the seven built-in parsers that
    take an output slot (the five range parsers, [parse_bool] and
    [parse_string_option]) is the same whether a slot is supplied or the
    output pointer is null; [parse_custom] is left out, its verdict being
    the callback's. *)
Theorem verdict_ignores_output_slot :
  (forall dm arg min max v,
      fst (parse_uint32_in_range dm arg min max (Some v)) =
      fst (parse_uint32_in_range dm arg min max None)) /\
  (forall arg min max v,
      fst (parse_uint64_in_range arg min max (Some v)) =
      fst (parse_uint64_in_range arg min max None)) /\
  (forall dm arg min max v,
      fst (parse_int_in_range dm arg min max (Some v)) =
      fst (parse_int_in_range dm arg min max None)) /\
  (forall arg min max v,
      fst (parse_float_in_range arg min max (Some v)) =
      fst (parse_float_in_range arg min max None)) /\
  (forall dm arg min max v,
      fst (parse_hex_in_range dm arg min max (Some v)) =
      fst (parse_hex_in_range dm arg min max None)) /\
  (forall arg v,
      fst (parse_bool arg (Some v)) = fst (parse_bool arg None)) /\
  (forall arg options v,
      fst (parse_string_option arg options (Some v)) =
      fst (parse_string_option arg options None)).
Proof.
  repeat split; intros.
  - apply uint32_verdict.
  - apply uint64_verdict.
  - apply int_verdict.
  - apply float_verdict.
  - apply hex_verdict.
  - apply bool_verdict.
  - apply string_option_verdict.
Qed.

(** ** Case-insensitive comparison and the boolean keywords *)

Section Keywords.

Lemma fold_case_lower (c : ascii) : fold_case c = lower_char c.
Proof.
  destruct c as [[|] [|] [|] [|] [|] [|] [|] [|]]; reflexivity.
Qed.

Lemma iequals_eqb (s1 s2 : string) :
  iequals s1 s2 = String.eqb (lower s1) (lower s2).
Proof.
  revert s2; induction s1 as [|c1 s1 IH]; intros [|c2 s2];
    cbn [iequals lower String.eqb]; try reflexivity.
  rewrite !fold_case_lower, <- IH.
  now destruct (lower_char c1 =? lower_char c2)%char.
Qed.

(** X5.  [iequals] is equality up to the case of the ASCII letters: it
    holds of two strings exactly when their lower-case foldings are the
    same string. *)
Theorem iequals_up_to_case (s1 s2 : string) :
  iequals s1 s2 = true <-> lower s1 = lower s2.
Proof. rewrite iequals_eqb. apply String.eqb_eq. Qed.

(** X6.  [parse_bool] succeeds exactly on the arguments that are, up to
    case, one of [true], [1], [yes] (it then writes true) or one of
    [false], [0], [no] (it then writes false). *)
Theorem parse_bool_accepts_exactly (arg : string) (out : slot bool) :
  parse_bool (Some arg) out =
  if existsb (String.eqb (lower arg)) ["true"; "1"; "yes"]
  then (true, store out true)
  else if existsb (String.eqb (lower arg)) ["false"; "0"; "no"]
  then (true, store out false)
  else (false, out).
Proof.
  unfold parse_bool. rewrite !iequals_eqb.
  cbn [existsb]. rewrite !orb_false_r, !orb_assoc. reflexivity.
Qed.

End Keywords.

(** ** What the decimal parsers accept *)

Section DecimalParsers.

Lemma is_digits_literal (s : string) :
  is_digits (Some s) = nonempty s && all_in decimal_digits s.
Proof.
  destruct s as [|c s]; [reflexivity|].
  cbn [is_digits nonempty andb]. apply all_isdigit_all_in.
Qed.

Lemma unsigned_literal_digits (s : string) :
  unsigned_literal s =
  if is_digits (Some s) then Some (decimal_value s) else None.
Proof. unfold unsigned_literal. now rewrite is_digits_literal. Qed.

Lemma is_digits_nonneg (s : string) :
  is_digits (Some s) = true -> 0 <= decimal_value s.
Proof.
  intros H. apply decimal_value_nonneg.
  destruct s; [discriminate|exact H].
Qed.

Lemma within_range_check (min max v : Z) :
  (v <? min) || (v >? max) = negb (within min max v).
Proof.
  unfold within.
  destruct (Z.leb_spec min v), (Z.leb_spec v max); cbn [andb negb].
  - apply orb_false_iff. split; lia.
  - apply orb_true_iff. right. lia.
  - apply orb_true_iff. left. lia.
  - apply orb_true_iff. left. lia.
Qed.

(** The unsigned parsers after the lexical test: the value read is the
    number denoted, capped at the largest value of the type read into. *)
Lemma uint32_reads (dm : data_model) (s : string) min max out :
  parse_uint32_in_range dm (Some s) min max out =
  match unsigned_literal s with
  | Some n =>
      let val := Z.min n (ULONG_MAX dm) in
      if within min max val then (true, store out (to_unsigned 32 val))
      else (false, out)
  | None => (false, out)
  end.
Proof.
  rewrite unsigned_literal_digits. unfold parse_uint32_in_range.
  destruct s as [|c s]; [reflexivity|].
  destruct (is_digits (Some (String c s))) eqn:Hd; cbn [negb];
    [|reflexivity].
  unfold strtoul. rewrite strtou_digits by exact Hd.
  cbn [is_nul negb]. cbv zeta.
  assert ((if decimal_value (String c s) >? ULONG_MAX dm
           then ULONG_MAX dm else decimal_value (String c s))
          = Z.min (decimal_value (String c s)) (ULONG_MAX dm)) as ->.
  { destruct (Z.gtb_spec (decimal_value (String c s)) (ULONG_MAX dm)); lia. }
  rewrite within_range_check.
  now destruct (within min max _).
Qed.

Lemma uint64_reads (s : string) min max out :
  parse_uint64_in_range (Some s) min max out =
  match unsigned_literal s with
  | Some n =>
      let val := Z.min n UINT64_MAX in
      if within min max val then (true, store out (to_unsigned 64 val))
      else (false, out)
  | None => (false, out)
  end.
Proof.
  rewrite unsigned_literal_digits. unfold parse_uint64_in_range.
  destruct s as [|c s]; [reflexivity|].
  destruct (is_digits (Some (String c s))) eqn:Hd; cbn [negb];
    [|reflexivity].
  unfold strtoull. rewrite strtou_digits by exact Hd.
  change ULLONG_MAX with UINT64_MAX.
  cbn [is_nul negb]. cbv zeta.
  assert ((if decimal_value (String c s) >? UINT64_MAX
           then UINT64_MAX else decimal_value (String c s))
          = Z.min (decimal_value (String c s)) UINT64_MAX) as ->.
  { destruct (Z.gtb_spec (decimal_value (String c s)) UINT64_MAX); lia. }
  rewrite within_range_check.
  now destruct (within min max _).
Qed.

Lemma unsigned_literal_nonneg (s : string) (n : Z) :
  unsigned_literal s = Some n -> 0 <= n.
Proof.
  rewrite unsigned_literal_digits.
  destruct (is_digits (Some s)) eqn:Hd; [|discriminate].
  intros [= <-]. now apply is_digits_nonneg.
Qed.

Lemma ULONG_MAX_pos (dm : data_model) : 0 < ULONG_MAX dm.
Proof. destruct dm; reflexivity. Qed.

Lemma to_unsigned_small (w v : Z) :
  0 <= v < 2 ^ w -> to_unsigned w v = v.
Proof. intros H. unfold to_unsigned. now apply Z.mod_small. Qed.

(** X7.  With an upper bound of the 32-bit unsigned type that is below
    [ULONG_MAX] (any such bound where [long] has 64 bits),
    [parse_uint32_in_range] succeeds exactly on the non-empty runs of
    decimal digits (no sign, no blank) that denote a number of
    [[min, max]], and writes that number. *)
Theorem uint32_accepts_exactly (dm : data_model) (s : string) min max out :
  max <= UINT32_MAX -> max < ULONG_MAX dm ->
  parse_uint32_in_range dm (Some s) min max out =
  match unsigned_literal s with
  | Some n => if within min max n then (true, store out n) else (false, out)
  | None => (false, out)
  end.
Proof.
  intros H32 Hul. rewrite uint32_reads.
  destruct (unsigned_literal s) as [n|] eqn:E; [|reflexivity].
  pose proof (unsigned_literal_nonneg s n E) as Hn. cbv zeta.
  unfold within.
  destruct (Z.le_gt_cases n (ULONG_MAX dm)) as [L|G].
  - rewrite Z.min_l by exact L.
    destruct ((min <=? n) && (n <=? max)) eqn:W; [|reflexivity].
    apply andb_true_iff in W as (_ & W). apply Z.leb_le in W.
    rewrite to_unsigned_small; [reflexivity|].
    unfold UINT32_MAX in H32. lia.
  - rewrite Z.min_r by lia.
    replace (ULONG_MAX dm <=? max) with false by lia.
    replace (n <=? max) with false by lia.
    now rewrite !andb_false_r.
Qed.

(** X8.  With an upper bound below [2^64 - 1],
    [parse_uint64_in_range] succeeds exactly on the non-empty runs of
    decimal digits that denote a number of [[min, max]], and writes that
    number. *)
Theorem uint64_accepts_exactly (s : string) min max out :
  max < UINT64_MAX ->
  parse_uint64_in_range (Some s) min max out =
  match unsigned_literal s with
  | Some n => if within min max n then (true, store out n) else (false, out)
  | None => (false, out)
  end.
Proof.
  intros H64. rewrite uint64_reads.
  destruct (unsigned_literal s) as [n|] eqn:E; [|reflexivity].
  pose proof (unsigned_literal_nonneg s n E) as Hn. cbv zeta.
  unfold within.
  destruct (Z.le_gt_cases n UINT64_MAX) as [L|G].
  - rewrite Z.min_l by exact L.
    destruct ((min <=? n) && (n <=? max)) eqn:W; [|reflexivity].
    apply andb_true_iff in W as (_ & W). apply Z.leb_le in W.
    rewrite to_unsigned_small; [reflexivity|].
    unfold UINT64_MAX in H64. lia.
  - rewrite Z.min_r by lia.
    replace (UINT64_MAX <=? max) with false by lia.
    replace (n <=? max) with false by lia.
    now rewrite !andb_false_r.
Qed.

(** X10.  With an upper bound of the 32-bit unsigned type that is below
    [ULONG_MAX], the 32-bit and the 64-bit unsigned parsers give the same
    verdict and write the same value on every argument, the null pointer
    included. *)
Theorem uint32_agrees_with_uint64 (dm : data_model) (arg : option string)
    min max out :
  max <= UINT32_MAX -> max < ULONG_MAX dm ->
  parse_uint32_in_range dm arg min max out =
  parse_uint64_in_range arg min max out.
Proof.
  intros H32 Hul. destruct arg as [s|]; [|reflexivity].
  rewrite uint32_reads, uint64_reads.
  destruct (unsigned_literal s) as [n|] eqn:E; [|reflexivity].
  pose proof (unsigned_literal_nonneg s n E) as Hn. cbv zeta.
  unfold UINT32_MAX in H32.
  assert (max < UINT64_MAX) as H64 by (unfold UINT64_MAX; lia).
  unfold within. destruct (Z.le_gt_cases n max) as [L|G].
  - rewrite !Z.min_l by lia.
    destruct ((min <=? n) && (n <=? max)); [|reflexivity].
    rewrite !to_unsigned_small; [reflexivity| |].
    + unfold UINT64_MAX in H64. lia.
    + lia.
  - replace (Z.min n (ULONG_MAX dm) <=? max) with false by lia.
    replace (Z.min n UINT64_MAX <=? max) with false by lia.
    now rewrite !andb_false_r.
Qed.

End DecimalParsers.

(** ** What the signed parser accepts *)

Section SignedParser.

Lemma scan_integer_plus (s : string) :
  is_digits (Some s) = true ->
  scan_integer (String "+" s) 10 = Some (false, decimal_value s, "").
Proof.
  intros H. pose proof (scan_integer_digits s H) as Hs.
  destruct s as [|c s]; [discriminate|].
  assert (isdigit c = true) as Hc.
  { simpl in H. now destruct (isdigit c). }
  destruct (digit_char c Hc) as (Hsp & Hm & Hp & _).
  unfold scan_integer in *. simpl skip_space in *. rewrite Hsp in Hs.
  cbn [scan_sign].
  destruct (scan_sign (String c s)) as [neg t] eqn:E.
  assert (t = String c s /\ neg = false) as (-> & ->).
  { unfold scan_sign in E.
    destruct c as [[|] [|] [|] [|] [|] [|] [|] [|]];
      try (injection E as <- <-; split; reflexivity); congruence. }
  exact Hs.
Qed.

Lemma signed_literal_unsigned (c : ascii) (d : string) :
  c <> "-"%char -> c <> "+"%char ->
  signed_literal (String c d) = unsigned_literal (String c d).
Proof.
  intros Hm Hp. unfold signed_literal.
  destruct c as [[|] [|] [|] [|] [|] [|] [|] [|]];
    try reflexivity; congruence.
Qed.

Lemma LONG_bounds (dm : data_model) : LONG_MIN dm < 0 < LONG_MAX dm.
Proof. destruct dm; split; reflexivity. Qed.

(** After the lexical test the value read is the number denoted, brought
    into the range of [long]. *)
Lemma int_reads (dm : data_model) (s : string) min max out :
  parse_int_in_range dm (Some s) min max out =
  match signed_literal s with
  | Some n =>
      let val := Z.max (LONG_MIN dm) (Z.min n (LONG_MAX dm)) in
      if within min max val
      then (true, store out (to_signed INT_BITS val))
      else (false, out)
  | None => (false, out)
  end.
Proof.
  pose proof (LONG_bounds dm) as Hb.
  unfold parse_int_in_range.
  destruct s as [|c d]; [reflexivity|].
  destruct (Ascii.eqb_spec c "-") as [->|Hm];
    [|destruct (Ascii.eqb_spec c "+") as [->|Hp]].
  - change (is_valid_int (Some (String "-" d))) with (is_digits (Some d)).
    change (signed_literal (String "-" d))
      with (option_map Z.opp (unsigned_literal d)).
    rewrite unsigned_literal_digits.
    destruct (is_digits (Some d)) eqn:Hd; cbn [negb option_map];
      [|reflexivity].
    unfold strtol. rewrite scan_integer_minus by exact Hd.
    cbn [is_nul negb]. cbv zeta.
    pose proof (is_digits_nonneg d Hd) as Hn.
    assert ((if decimal_value d >? - LONG_MIN dm
             then LONG_MIN dm else - decimal_value d)
            = Z.max (LONG_MIN dm)
                (Z.min (- decimal_value d) (LONG_MAX dm))) as ->.
    { destruct (Z.gtb_spec (decimal_value d) (- LONG_MIN dm)); lia. }
    rewrite within_range_check. now destruct (within min max _).
  - change (is_valid_int (Some (String "+" d))) with (is_digits (Some d)).
    change (signed_literal (String "+" d)) with (unsigned_literal d).
    rewrite unsigned_literal_digits.
    destruct (is_digits (Some d)) eqn:Hd; cbn [negb]; [|reflexivity].
    unfold strtol. rewrite scan_integer_plus by exact Hd.
    cbn [is_nul negb]. cbv zeta.
    pose proof (is_digits_nonneg d Hd) as Hn.
    assert ((if decimal_value d >? LONG_MAX dm
             then LONG_MAX dm else decimal_value d)
            = Z.max (LONG_MIN dm)
                (Z.min (decimal_value d) (LONG_MAX dm))) as ->.
    { destruct (Z.gtb_spec (decimal_value d) (LONG_MAX dm)); lia. }
    rewrite within_range_check. now destruct (within min max _).
  - rewrite signed_literal_unsigned by assumption.
    assert (is_valid_int (Some (String c d))
            = is_digits (Some (String c d))) as ->.
    { unfold is_valid_int. apply Ascii.eqb_neq in Hm, Hp.
      now rewrite Hm, Hp. }
    rewrite unsigned_literal_digits.
    destruct (is_digits (Some (String c d))) eqn:Hd; cbn [negb];
      [|reflexivity].
    rewrite strtol_digits by exact Hd.
    cbn [is_nul negb]. cbv zeta.
    pose proof (is_digits_nonneg _ Hd) as Hn.
    assert ((if decimal_value (String c d) >? LONG_MAX dm
             then LONG_MAX dm else decimal_value (String c d))
            = Z.max (LONG_MIN dm)
                (Z.min (decimal_value (String c d)) (LONG_MAX dm))) as ->.
    { destruct (Z.gtb_spec (decimal_value (String c d)) (LONG_MAX dm));
        lia. }
    rewrite within_range_check. now destruct (within min max _).
Qed.

(** X9.  With bounds of type [int] that lie strictly inside the range of
    [long] (any bounds where [long] has 64 bits), [parse_int_in_range]
    succeeds exactly on the non-empty runs of decimal digits behind an
    optional [+] or [-] that denote a number of [[min, max]], and writes
    that number. *)
Theorem int_accepts_exactly (dm : data_model) (s : string) min max out :
  INT_MIN <= min -> max <= INT_MAX ->
  LONG_MIN dm < min -> max < LONG_MAX dm ->
  parse_int_in_range dm (Some s) min max out =
  match signed_literal s with
  | Some n => if within min max n then (true, store out n) else (false, out)
  | None => (false, out)
  end.
Proof.
  intros Hlo Hhi Hmin Hmax. rewrite int_reads.
  destruct (signed_literal s) as [n|]; [|reflexivity].
  cbv zeta. unfold within.
  destruct (Z.leb_spec min n) as [A|A], (Z.leb_spec n max) as [B|B];
    cbn [andb].
  - rewrite Z.min_l, Z.max_r by lia.
    replace (min <=? n) with true by lia.
    replace (n <=? max) with true by lia. cbn [andb].
    rewrite to_signed_int by lia. reflexivity.
  - replace (Z.max (LONG_MIN dm) (Z.min n (LONG_MAX dm)) <=? max)
      with false by lia.
    now rewrite andb_false_r.
  - now replace (min <=? Z.max (LONG_MIN dm) (Z.min n (LONG_MAX dm)))
      with false by lia.
  - now replace (min <=? Z.max (LONG_MIN dm) (Z.min n (LONG_MAX dm)))
      with false by lia.
Qed.

End SignedParser.

(** ** What the hexadecimal parser accepts *)

Section HexParser.

Lemma hex_char (c : ascii) :
  member c hex_digits = true ->
  isspace c = false /\ c <> "-"%char /\ c <> "+"%char /\
  digit_of 16 c = Some (hex_digit_value c) /\
  0 <= hex_digit_value c <= 15.
Proof.
  destruct c as [[|] [|] [|] [|] [|] [|] [|] [|]];
    vm_compute; intros H; try discriminate H;
    repeat split; discriminate.
Qed.

Lemma hex_class (c : ascii) :
  char_in "0" "9" c || char_in "a" "f" c || char_in "A" "F" c
  = member c hex_digits.
Proof.
  destruct c as [[|] [|] [|] [|] [|] [|] [|] [|]]; reflexivity.
Qed.

Lemma all_hex_all_in (s : string) : all_hex s = all_in hex_digits s.
Proof.
  unfold all_in, chars.
  induction s as [|c s IH]; [reflexivity|].
  cbn [all_hex list_ascii_of_string forallb].
  rewrite hex_class, IH.
  now destruct (member c hex_digits).
Qed.

Lemma is_hex_digits_literal (s : string) :
  is_hex_digits (Some s) = nonempty s && all_in hex_digits s.
Proof.
  destruct s as [|c s]; [reflexivity|].
  cbn [is_hex_digits nonempty andb]. apply all_hex_all_in.
Qed.

Lemma scan_hex_all (s : string) (acc : Z) :
  all_in hex_digits s = true ->
  scan_digits 16 s acc =
  (fold_left (fun a c => a * 16 + hex_digit_value c) (chars s) acc, "").
Proof.
  unfold all_in, chars.
  revert acc; induction s as [|c s IH]; intros acc; [reflexivity|].
  cbn [list_ascii_of_string forallb scan_digits fold_left].
  intros H. apply andb_true_iff in H as (Hc & Hs).
  destruct (hex_char c Hc) as (_ & _ & _ & -> & _).
  now apply IH.
Qed.

Lemma all_in_cons (l : list ascii) (c : ascii) (s : string) :
  all_in l (String c s) = member c l && all_in l s.
Proof. reflexivity. Qed.

Lemma skip_hex_prefix_bare (s : string) :
  all_in hex_digits s = true -> skip_hex_prefix 16 s = s.
Proof.
  destruct s as [|c [|x [|h s]]]; intros H; try reflexivity;
    unfold skip_hex_prefix.
  - destruct c as [[|] [|] [|] [|] [|] [|] [|] [|]]; reflexivity.
  - destruct c as [[|] [|] [|] [|] [|] [|] [|] [|]]; reflexivity.
  - rewrite !all_in_cons in H.
    apply andb_true_iff in H as (_ & H).
    apply andb_true_iff in H as (Hx & _).
    destruct (hex_member x Hx) as (E1 & E2). rewrite E1, E2.
    destruct c as [[|] [|] [|] [|] [|] [|] [|] [|]]; reflexivity.
Qed.

Lemma strtoul_hex (dm : data_model) (s : string) :
  nonempty s && all_in hex_digits s = true ->
  strtoul dm s 16 = (Z.min (hex_value s) (ULONG_MAX dm), "").
Proof.
  intros H. apply andb_true_iff in H as (Hne & Hs).
  destruct s as [|c s]; [discriminate|].
  pose proof Hs as Hcs. rewrite all_in_cons in Hcs.
  apply andb_true_iff in Hcs as (Hc & _).
  destruct (hex_char c Hc) as (Hsp & Hm & Hp & Hd & _).
  unfold strtoul, strtou, scan_integer.
  simpl skip_space. rewrite Hsp.
  assert (scan_sign (String c s) = (false, String c s)) as ->.
  { unfold scan_sign.
    destruct c as [[|] [|] [|] [|] [|] [|] [|] [|]];
      try reflexivity; congruence. }
  rewrite skip_hex_prefix_bare by exact Hs. rewrite Hd.
  rewrite scan_hex_all by exact Hs.
  fold (hex_value (String c s)).
  destruct (Z.gtb_spec (hex_value (String c s)) (ULONG_MAX dm));
    f_equal; lia.
Qed.

(** The argument once the prefix is stepped over must be a non-empty run
    of hexadecimal digits; the value read is the number it denotes,
    capped at [ULONG_MAX]. *)
Lemma hex_reads (dm : data_model) (arg : string) min max out :
  parse_hex_in_range dm (Some arg) min max out =
  let body := after_prefix arg in
  if nonempty body && all_in hex_digits body then
    let val := Z.min (hex_value body) (ULONG_MAX dm) in
    if within min max val then (true, store out val) else (false, out)
  else (false, out).
Proof.
  destruct arg as [|c s]; [reflexivity|].
  rewrite parse_hex_after_prefix. cbv zeta.
  rewrite is_hex_digits_literal.
  destruct (nonempty _ && all_in hex_digits _) eqn:H; cbn [negb];
    [|reflexivity].
  rewrite strtoul_hex by exact H.
  cbn [is_nul negb]. rewrite within_range_check.
  now destruct (within min max _).
Qed.

(** Case folding and the hexadecimal digits. *)
Lemma lower_char_hex (c : ascii) :
  member (lower_char c) hex_digits = member c hex_digits /\
  hex_digit_value (lower_char c) = hex_digit_value c /\
  ((lower_char c =? "x")%char || (lower_char c =? "X")%char
   = (c =? "x")%char || (c =? "X")%char) /\
  (lower_char c = "0"%char <-> c = "0"%char).
Proof.
  destruct c as [[|] [|] [|] [|] [|] [|] [|] [|]];
    vm_compute; repeat split; intros; congruence.
Qed.

Lemma lower_all_hex (s : string) :
  all_in hex_digits (lower s) = all_in hex_digits s.
Proof.
  induction s as [|c s IH]; [reflexivity|].
  cbn [lower]. rewrite !all_in_cons, IH.
  now destruct (lower_char_hex c) as (-> & _).
Qed.

Lemma lower_hex_value (s : string) : hex_value (lower s) = hex_value s.
Proof.
  unfold hex_value, chars. generalize 0 as acc.
  induction s as [|c s IH]; intros acc; [reflexivity|].
  cbn [lower list_ascii_of_string fold_left].
  destruct (lower_char_hex c) as (_ & -> & _). apply IH.
Qed.

Lemma lower_nonempty (s : string) : nonempty (lower s) = nonempty s.
Proof. now destruct s. Qed.

Lemma after_prefix_other (c : ascii) (s : string) :
  c <> "0"%char -> after_prefix (String c s) = String c s.
Proof.
  intros H. unfold after_prefix.
  destruct c as [[|] [|] [|] [|] [|] [|] [|] [|]];
    try reflexivity; destruct s; congruence.
Qed.

Lemma lower_after_prefix (s : string) :
  after_prefix (lower s) = lower (after_prefix s).
Proof.
  destruct s as [|c s]; [reflexivity|].
  destruct (lower_char_hex c) as (_ & _ & _ & Hz).
  destruct (Ascii.eqb_spec c "0") as [->|Hc].
  - destruct s as [|x s]; [reflexivity|].
    destruct (lower_char_hex x) as (_ & _ & Hx & _).
    cbn [lower]. change (lower_char "0") with "0"%char.
    cbn [after_prefix]. rewrite Hx.
    now destruct ((x =? "x")%char || (x =? "X")%char).
  - rewrite (after_prefix_other c s Hc). cbn [lower].
    apply after_prefix_other. intros E. apply Hc. now apply Hz.
Qed.

(** X12.  [parse_hex_in_range] does not look at the case of the letters:
    an argument and its lower-case folding give the same verdict and the
    same value. *)
Theorem hex_ignores_case (dm : data_model) (arg : string) min max out :
  parse_hex_in_range dm (Some (lower arg)) min max out =
  parse_hex_in_range dm (Some arg) min max out.
Proof.
  rewrite !hex_reads. cbv zeta.
  now rewrite lower_after_prefix, lower_nonempty, lower_all_hex,
    lower_hex_value.
Qed.

End HexParser.

(** ** What a success writes *)

Section WrittenValue.

Lemma within_bounds (min max v : Z) :
  within min max v = true -> min <= v <= max.
Proof. unfold within. intros H. apply andb_true_iff in H. lia. Qed.

Lemma uint32_written (dm : data_model) arg min max old v :
  max <= UINT32_MAX ->
  parse_uint32_in_range dm arg min max (Some old) = (true, Some v) ->
  min <= v <= max.
Proof.
  intros H32. destruct arg as [s|]; [|discriminate].
  rewrite uint32_reads.
  destruct (unsigned_literal s) as [n|] eqn:E; [|discriminate].
  pose proof (unsigned_literal_nonneg s n E).
  pose proof (ULONG_MAX_pos dm). cbv zeta.
  destruct (within min max _) eqn:W; [|discriminate].
  apply within_bounds in W. cbn [store].
  rewrite to_unsigned_small by (unfold UINT32_MAX in H32; lia).
  intros [= <-]. exact W.
Qed.

Lemma uint64_written arg min max old v :
  max <= UINT64_MAX ->
  parse_uint64_in_range arg min max (Some old) = (true, Some v) ->
  min <= v <= max.
Proof.
  intros H64. destruct arg as [s|]; [|discriminate].
  rewrite uint64_reads.
  destruct (unsigned_literal s) as [n|] eqn:E; [|discriminate].
  pose proof (unsigned_literal_nonneg s n E). cbv zeta.
  destruct (within min max _) eqn:W; [|discriminate].
  apply within_bounds in W. cbn [store].
  rewrite to_unsigned_small by (unfold UINT64_MAX in *; lia).
  intros [= <-]. exact W.
Qed.

Lemma int_written (dm : data_model) arg min max old v :
  INT_MIN <= min -> max <= INT_MAX ->
  parse_int_in_range dm arg min max (Some old) = (true, Some v) ->
  min <= v <= max.
Proof.
  intros Hlo Hhi. destruct arg as [s|]; [|discriminate].
  rewrite int_reads.
  destruct (signed_literal s) as [n|]; [|discriminate]. cbv zeta.
  destruct (within min max _) eqn:W; [|discriminate].
  apply within_bounds in W. cbn [store].
  rewrite to_signed_int by lia.
  intros [= <-]. exact W.
Qed.

Lemma hex_written (dm : data_model) arg min max old v :
  parse_hex_in_range dm arg min max (Some old) = (true, Some v) ->
  min <= v <= max.
Proof.
  destruct arg as [s|]; [|discriminate].
  rewrite hex_reads. cbv zeta.
  destruct (nonempty _ && all_in hex_digits _); [|discriminate].
  destruct (within min max _) eqn:W; [|discriminate].
  apply within_bounds in W. cbn [store].
  intros [= <-]. exact W.
Qed.

(** The order of [float]s is total on the numbers. *)
Lemma float_not_less (a b : spec_float) :
  flt a b = false -> a <> S754_nan -> b <> S754_nan -> SFleb b a = true.
Proof.
  unfold flt, SFltb, SFleb, SFcompare.
  destruct a as [sa|sa| |sa ma ea], b as [sb|sb| |sb mb eb];
    try congruence;
    repeat match goal with s : bool |- _ => destruct s end;
    try reflexivity; try discriminate;
    repeat match goal with
           | |- context [Z.compare ?x ?y] => destruct (Z.compare_spec x y)
           | |- context [Pos.compare_cont Eq ?x ?y] =>
               change (Pos.compare_cont Eq x y) with (Pos.compare x y);
               destruct (Pos.compare_spec x y)
           end; simpl; intros Ha _ _;
    try discriminate Ha; try reflexivity; exfalso; lia.
Qed.

(** X14.  When [parse_float_in_range] succeeds, [strtof] has consumed the
    whole argument, the value written is the one [strtof] returned and,
    unless that value or one of the bounds is a NaN, it lies in
    [[min, max]]. *)
Theorem float_written_within_bounds arg min max old v :
  parse_float_in_range (Some arg) min max (Some old) = (true, Some v) ->
  strtof arg = (v, "") /\
  (v = S754_nan \/ min = S754_nan \/ max = S754_nan \/
   (SFleb min v = true /\ SFleb v max = true)).
Proof.
  unfold parse_float_in_range.
  destruct arg as [|c s]; [discriminate|].
  destruct (strtof (String c s)) as [val endptr].
  destruct endptr; cbn [is_nul negb]; [|discriminate].
  destruct (flt val min) eqn:E1; [discriminate|].
  destruct (fgt val max) eqn:E2; [discriminate|].
  cbn [orb store]. intros [= <-]. split; [reflexivity|].
  destruct val as [sv|sv| |sv mv ev] eqn:Ev; [| |now left|];
    (destruct min as [sl|sl| |sl ml el] eqn:El; [| |now right; left|]);
    (destruct max as [sh|sh| |sh mh eh] eqn:Eh;
     [| |now right; right; left|]);
    right; right; right; split;
    solve [ apply float_not_less; [exact E1|discriminate|discriminate]
          | apply (float_not_less _ _ E2); discriminate ].
Qed.

End WrittenValue.

(** ** The two address validators *)

Section Addresses.

Lemma digits_are_address_chars (c : ascii) :
  member c decimal_digits = true -> member c address_chars = true.
Proof.
  destruct c as [[|] [|] [|] [|] [|] [|] [|] [|]];
    vm_compute; congruence.
Qed.

Lemma pieces_chars (s : string) :
  forallb (all_in decimal_digits) (split_on "." s) = true ->
  all_in address_chars s = true.
Proof.
  induction s as [|c s IH]; [reflexivity|].
  cbn [split_on]. rewrite all_in_cons.
  destruct (Ascii.eqb_spec c ".") as [->|Hc].
  - cbn [forallb]. intros H. apply andb_true_iff in H as (_ & H).
    now rewrite IH.
  - destruct (split_on "." s) as [|t ts]; cbn [forallb];
      rewrite all_in_cons; intros H.
    + apply andb_true_iff in H as (H & _).
      apply andb_true_iff in H as (H & _).
      rewrite (digits_are_address_chars c H). now apply IH.
    + apply andb_true_iff in H as (H & Hts).
      apply andb_true_iff in H as (H & Ht).
      rewrite (digits_are_address_chars c H). apply IH.
      cbn [forallb]. now rewrite Ht, Hts.
Qed.

Lemma octets_digits (l : list string) :
  forallb octet (filter nonempty l) = true ->
  forallb (all_in decimal_digits) l = true.
Proof.
  induction l as [|t l IH]; [reflexivity|].
  cbn [filter forallb]. destruct t as [|c t]; cbn [nonempty].
  - intros H. now rewrite IH.
  - cbn [forallb]. intros H. apply andb_true_iff in H as (Ho & Hl).
    rewrite (IH Hl), andb_true_r.
    unfold octet in Ho. apply andb_true_iff in Ho as (Ho & _).
    now apply andb_true_iff in Ho as (_ & Ho).
Qed.

Lemma accepted_address_chars (dm : data_model) (arg : string) :
  parse_ip_address dm (Some arg) = true ->
  Z.of_nat (String.length arg) <= 15 /\ all_in address_chars arg = true.
Proof.
  rewrite parse_ip_address_lax. unfold lax_dotted_quad. intros H.
  apply andb_true_iff in H as (H & Ho).
  apply andb_true_iff in H as (Hl & _).
  split; [now apply Z.leb_le|].
  apply pieces_chars. now apply octets_digits.
Qed.

(** X1.  [parse_ip_address] succeeds exactly on the strings of at most 15
    characters whose non-empty pieces between the dots are four, each a
    run of decimal digits denoting a number of [[0, 255]] (leading zeros
    allowed). *)
Theorem ip_address_accepts_exactly (dm : data_model) (arg : string) :
  parse_ip_address dm (Some arg) = true <->
  Z.of_nat (String.length arg) <= 15 /\
  exists a b c d,
    filter nonempty (split_on "." arg) = [a; b; c; d] /\
    octet a = true /\ octet b = true /\ octet c = true /\ octet d = true.
Proof.
  rewrite parse_ip_address_lax. unfold lax_dotted_quad. split.
  - intros H. apply andb_true_iff in H as (H & Ho).
    apply andb_true_iff in H as (Hl & Hn).
    split; [now apply Z.leb_le|].
    destruct (filter nonempty (split_on "." arg))
      as [|a [|b [|c [|d [|e l]]]]]; try discriminate.
    exists a, b, c, d. cbn [forallb] in Ho.
    repeat (apply andb_true_iff in Ho as (? & Ho)). tauto.
  - intros (Hl & a & b & c & d & -> & Ha & Hb & Hc & Hd).
    cbn [forallb List.length]. rewrite Ha, Hb, Hc, Hd.
    apply Z.leb_le in Hl. now rewrite Hl.
Qed.

(** [strchr] and the text before the character found. *)
Lemma strchr_found (s : string) (c : ascii) (t : string) :
  strchr s c = Some t ->
  exists pre rest,
    s = pre ++ String c rest /\ t = String c rest /\
    member c (chars pre) = false /\
    take (String.length pre) s = pre /\
    strlen s - strlen t = Z.of_nat (String.length pre).
Proof.
  revert t; induction s as [|a s IH]; intros t; [discriminate|].
  cbn [strchr]. destruct (Ascii.eqb_spec a c) as [->|Ha].
  - intros [= <-]. exists "", s. repeat split.
    unfold strlen. cbn [String.length]. lia.
  - intros H. destruct (IH t H) as (pre & rest & -> & -> & Hm & Ht & Hl).
    exists (String a pre), rest. repeat split.
    + unfold member, chars in *. cbn [list_ascii_of_string existsb].
      rewrite Hm. apply Ascii.eqb_neq in Ha.
      now rewrite Ascii.eqb_sym, Ha.
    + cbn [String.length take append]. now rewrite Ht.
    + unfold strlen in *. cbn [String.length append] in *. lia.
Qed.

Lemma strchr_first (pre rest : string) (c : ascii) :
  member c (chars pre) = false ->
  strchr (pre ++ String c rest) c = Some (String c rest).
Proof.
  induction pre as [|a pre IH]; cbn [append strchr].
  - now rewrite Ascii.eqb_refl.
  - unfold member, chars. cbn [list_ascii_of_string existsb].
    intros H. apply orb_false_iff in H as (Ha & Hp).
    rewrite Ascii.eqb_sym, Ha. now apply IH.
Qed.

Lemma take_app (pre rest : string) :
  take (String.length pre) (pre ++ rest) = pre.
Proof.
  induction pre as [|a pre IH]; cbn [String.length append take].
  - now destruct rest.
  - now rewrite IH.
Qed.

Lemma app_length (a b : string) :
  String.length (a ++ b) = (String.length a + String.length b)%nat.
Proof. induction a as [|c a IH]; cbn; [reflexivity|now rewrite IH]. Qed.

Lemma address_chars_no_slash (s : string) :
  all_in address_chars s = true -> member "/" (chars s) = false.
Proof.
  unfold member, chars.
  induction s as [|c s IH]; [reflexivity|].
  rewrite all_in_cons. intros H. apply andb_true_iff in H as (Hc & Hs).
  cbn [list_ascii_of_string existsb]. rewrite (IH Hs), orb_false_r.
  destruct c as [[|] [|] [|] [|] [|] [|] [|] [|]];
    try reflexivity; discriminate Hc.
Qed.

Lemma netmask_check (dm : data_model) (mask : string) :
  is_digits (Some mask) = true ->
  (let '(netmask, endptr) := strtol dm mask 10 in
   if negb (is_nul endptr) then false
   else if (netmask <? 0) || (netmask >? 32) then false else true)
  = (decimal_value mask <=? 32).
Proof.
  intros Hd. rewrite strtol_digits by exact Hd. cbn [is_nul negb].
  pose proof (is_digits_nonneg mask Hd).
  pose proof (LONG_MAX_ge_255 dm).
  destruct (Z.gtb_spec (decimal_value mask) (LONG_MAX dm)).
  - replace (LONG_MAX dm <? 0) with false by lia.
    replace (LONG_MAX dm >? 32) with true by lia.
    cbn [orb]. symmetry. apply Z.leb_gt. lia.
  - replace (decimal_value mask <? 0) with false by lia. cbn [orb].
    destruct (Z.leb_spec (decimal_value mask) 32);
      [replace (decimal_value mask >? 32) with false by lia
      |replace (decimal_value mask >? 32) with true by lia];
      reflexivity.
Qed.

(** X3.  [parse_ip_address_with_netmask] succeeds exactly on the strings
    [ip ++ "/" ++ mask] where [parse_ip_address] accepts [ip] and [mask]
    is a non-empty run of decimal digits denoting a number of
    [[0, 32]]. *)
Theorem ip_netmask_accepts_exactly (dm : data_model) (arg : string) :
  parse_ip_address_with_netmask dm (Some arg) = true <->
  exists ip mask,
    arg = ip ++ "/" ++ mask /\
    parse_ip_address dm (Some ip) = true /\
    unsigned_literal mask <> None /\
    decimal_value mask <= 32.
Proof.
  split.
  - unfold parse_ip_address_with_netmask.
    destruct arg as [|a0 s0]; [discriminate|].
    destruct (strchr (String a0 s0) "/") as [slash|] eqn:E;
      [|discriminate].
    destruct (strchr_found _ _ _ E)
      as (ip & mask & Harg & -> & _ & Htake & Hlen).
    rewrite Hlen, Nat2Z.id, Htake. cbv zeta.
    destruct ((_ =? 0) || (_ >? 15)); [discriminate|].
    destruct (parse_ip_address dm (Some ip)) eqn:Hip; cbn [negb];
      [|discriminate].
    destruct (is_nul mask); [discriminate|].
    destruct (is_digits (Some mask)) eqn:Hd; cbn [negb]; [|discriminate].
    rewrite (netmask_check dm mask Hd). intros H.
    exists ip, mask. split; [exact Harg|]. split; [exact Hip|].
    split; [|now apply Z.leb_le].
    rewrite unsigned_literal_digits, Hd. discriminate.
  - intros (ip & mask & -> & Hip & Hm & Hv).
    rewrite unsigned_literal_digits in Hm.
    destruct (is_digits (Some mask)) eqn:Hd; [|congruence].
    destruct (accepted_address_chars dm ip Hip) as (Hl & Hc).
    pose proof (address_chars_no_slash ip Hc) as Hns.
    assert (ip <> "") as Hne by (intros ->; discriminate Hip).
    unfold parse_ip_address_with_netmask.
    change ("/" ++ mask) with (String "/" mask).
    rewrite (strchr_first ip mask "/" Hns).
    destruct (ip ++ String "/" mask) as [|a0 s0] eqn:Earg;
      [destruct ip; discriminate|].
    rewrite <- Earg. unfold strlen. rewrite app_length.
    cbn [String.length]. cbv zeta.
    replace (Z.of_nat (String.length ip + S (String.length mask))
             - Z.of_nat (S (String.length mask)))
      with (Z.of_nat (String.length ip)) by lia.
    rewrite Nat2Z.id, take_app, Hip. cbn [negb].
    assert (0 < Z.of_nat (String.length ip))
      by (destruct ip; [congruence|cbn; lia]).
    replace (Z.of_nat (String.length ip) =? 0) with false by lia.
    replace (Z.of_nat (String.length ip) >? 15) with false by lia.
    cbn [orb].
    destruct mask as [|m0 mask]; [discriminate|]. cbn [is_nul].
    rewrite Hd. cbn [negb].
    rewrite (netmask_check dm _ Hd). now apply Z.leb_le.
Qed.

(** X4.  No argument is accepted by both address validators: what
    [parse_ip_address] accepts, [parse_ip_address_with_netmask]
    rejects. *)
Theorem address_validators_disjoint (dm : data_model) (arg : option string) :
  parse_ip_address dm arg = true ->
  parse_ip_address_with_netmask dm arg = false.
Proof.
  destruct arg as [s|]; [|reflexivity]. intros H.
  destruct (accepted_address_chars dm s H) as (_ & Hc).
  pose proof (address_chars_no_slash s Hc) as Hns.
  assert (strchr s "/" = None) as E.
  { clear -Hns. unfold member, chars in Hns.
    induction s as [|c s IH]; [reflexivity|].
    cbn [list_ascii_of_string existsb] in Hns.
    apply orb_false_iff in Hns as (Hc & Hs).
    cbn [strchr]. rewrite Ascii.eqb_sym, Hc. now apply IH. }
  unfold parse_ip_address_with_netmask.
  destruct s; [reflexivity|]. now rewrite E.
Qed.

End Addresses.

(** ** Further properties of the parsers *)

(** X2.  A string accepted by [parse_ip_address] has at most 15
    characters, all of them decimal digits or dots. *)
Theorem ip_address_only_digits_and_dots :
  forall (dm : data_model) (arg : string),
    parse_ip_address dm (Some arg) = true ->
    Z.of_nat (String.length arg) <= 15 /\ all_in address_chars arg = true.
Proof.
  intros dm arg. rewrite parse_ip_address_lax. unfold lax_dotted_quad.
  intros H. apply andb_true_iff in H as (H & Ho).
  apply andb_true_iff in H as (Hl & _).
  split; [now apply Z.leb_le|].
  apply pieces_chars. now apply octets_digits.
Qed.

Lemma ip_address_only_digits_and_dots_witness :
  Z.of_nat (String.length "192.168.1.1") <= 15 /\
  all_in address_chars "192.168.1.1" = true.
Proof.
  apply (ip_address_only_digits_and_dots LP64 "192.168.1.1").
  reflexivity.
Defined.

Lemma address_validators_disjoint_witness :
  parse_ip_address_with_netmask ILP32 (Some "10.0.0.1") = false.
Proof.
  apply (address_validators_disjoint ILP32 (Some "10.0.0.1")).
  reflexivity.
Defined.

Lemma uint32_accepts_exactly_witness :
  parse_uint32_in_range LP64 (Some "0042") 0 4294967295 (Some 0) =
  match unsigned_literal "0042" with
  | Some n =>
      if within 0 4294967295 n then (true, store (Some 0) n)
      else (false, Some 0)
  | None => (false, Some 0)
  end.
Proof.
  apply (uint32_accepts_exactly LP64 "0042" 0 4294967295 (Some 0)).
  - unfold UINT32_MAX. lia.
  - reflexivity.
Defined.

Lemma uint64_accepts_exactly_witness :
  parse_uint64_in_range (Some "18446744073709551616") 0
    18446744073709551614 (Some 0) =
  match unsigned_literal "18446744073709551616" with
  | Some n =>
      if within 0 18446744073709551614 n then (true, store (Some 0) n)
      else (false, Some 0)
  | None => (false, Some 0)
  end.
Proof.
  apply (uint64_accepts_exactly "18446744073709551616" 0
           18446744073709551614 (Some 0)).
  reflexivity.
Defined.

Lemma int_accepts_exactly_witness :
  parse_int_in_range LP64 (Some "+007") (-2147483648) 2147483647 (Some 0) =
  match signed_literal "+007" with
  | Some n =>
      if within (-2147483648) 2147483647 n then (true, store (Some 0) n)
      else (false, Some 0)
  | None => (false, Some 0)
  end.
Proof.
  apply (int_accepts_exactly LP64 "+007" (-2147483648) 2147483647 (Some 0)).
  - unfold INT_MIN, INT_BITS. lia.
  - unfold INT_MAX, INT_BITS. lia.
  - reflexivity.
  - reflexivity.
Defined.

Lemma uint32_agrees_with_uint64_witness :
  parse_uint32_in_range LLP64 (Some "99999999999") 5 4294967294 (Some 0) =
  parse_uint64_in_range (Some "99999999999") 5 4294967294 (Some 0).
Proof.
  apply (uint32_agrees_with_uint64 LLP64 (Some "99999999999") 5 4294967294
           (Some 0)).
  - unfold UINT32_MAX. lia.
  - reflexivity.
Defined.

(** X11.  [parse_hex_in_range] steps over one leading [0x] or [0X];
    what is left must be a non-empty run of hexadecimal digits; the
    value read is the number it denotes, capped at [ULONG_MAX]; the
    parser succeeds, and writes that value, exactly when it lies in
    [[min, max]]. *)
Theorem hex_accepts_exactly :
  forall (dm : data_model) (arg : string) min max out,
    parse_hex_in_range dm (Some arg) min max out =
    let body := after_prefix arg in
    if nonempty body && all_in hex_digits body then
      let val := Z.min (hex_value body) (ULONG_MAX dm) in
      if within min max val then (true, store out val) else (false, out)
    else (false, out).
Proof.
  intros dm arg min max out.
  destruct arg as [|c s]; [reflexivity|].
  rewrite parse_hex_after_prefix. cbv zeta.
  rewrite is_hex_digits_literal.
  destruct (nonempty _ && all_in hex_digits _) eqn:H; cbn [negb];
    [|reflexivity].
  rewrite strtoul_hex by exact H.
  cbn [is_nul negb]. rewrite within_range_check.
  now destruct (within min max _).
Qed.

(** X13.  When an integer parser succeeds, with bounds that its target
    type can hold, the value it writes lies in [[min, max]]. *)
Theorem integer_written_within_bounds :
  (forall dm arg min max old v,
      max <= UINT32_MAX ->
      parse_uint32_in_range dm arg min max (Some old) = (true, Some v) ->
      min <= v <= max) /\
  (forall arg min max old v,
      max <= UINT64_MAX ->
      parse_uint64_in_range arg min max (Some old) = (true, Some v) ->
      min <= v <= max) /\
  (forall dm arg min max old v,
      INT_MIN <= min -> max <= INT_MAX ->
      parse_int_in_range dm arg min max (Some old) = (true, Some v) ->
      min <= v <= max) /\
  (forall dm arg min max old v,
      parse_hex_in_range dm arg min max (Some old) = (true, Some v) ->
      min <= v <= max).
Proof.
  split; [exact uint32_written|].
  split; [exact uint64_written|].
  split; [exact int_written|exact hex_written].
Qed.

Lemma integer_written_within_bounds_witness :
  0 <= 4294967295 <= 4294967295 /\
  1 <= 18446744073709551615 <= 18446744073709551615 /\
  -5 <= -3 <= 2147483647 /\
  16 <= 255 <= 255.
Proof.
  destruct integer_written_within_bounds as (H32 & H64 & Hint & Hhex).
  split; [|split; [|split]].
  - apply (H32 ILP32 (Some "4294967296") 0 4294967295 7 4294967295).
    + unfold UINT32_MAX. lia.
    + reflexivity.
  - apply (H64 (Some "18446744073709551615") 1 18446744073709551615 7
             18446744073709551615).
    + unfold UINT64_MAX. lia.
    + reflexivity.
  - apply (Hint LP64 (Some "-3") (-5) 2147483647 7 (-3)).
    + unfold INT_MIN, INT_BITS. lia.
    + unfold INT_MAX, INT_BITS. lia.
    + reflexivity.
  - apply (Hhex LP64 (Some "0XfF") 16 255 7 255). reflexivity.
Defined.

Lemma float_written_within_bounds_witness :
  strtof "2.5" = (S754_finite false 10485760 (-22), "") /\
  (S754_finite false 10485760 (-22) = S754_nan \/
   S754_zero false = S754_nan \/ S754_infinity false = S754_nan \/
   (SFleb (S754_zero false) (S754_finite false 10485760 (-22)) = true /\
    SFleb (S754_finite false 10485760 (-22)) (S754_infinity false) = true)).
Proof.
  apply (float_written_within_bounds "2.5" (S754_zero false)
           (S754_infinity false) S754_nan).
  reflexivity.
Defined.

(** ** The lexical tests, and two consequences of how the text is read *)

Section Lexical.

Lemma is_valid_int_literal (s : string) :
  is_valid_int (Some s) =
  match signed_literal s with Some _ => true | None => false end.
Proof.
  destruct s as [|c d]; [reflexivity|].
  destruct (Ascii.eqb_spec c "-") as [->|Hm];
    [|destruct (Ascii.eqb_spec c "+") as [->|Hp]].
  - change (is_valid_int (Some (String "-" d))) with (is_digits (Some d)).
    change (signed_literal (String "-" d))
      with (option_map Z.opp (unsigned_literal d)).
    rewrite unsigned_literal_digits. now destruct (is_digits (Some d)).
  - change (is_valid_int (Some (String "+" d))) with (is_digits (Some d)).
    change (signed_literal (String "+" d)) with (unsigned_literal d).
    rewrite unsigned_literal_digits. now destruct (is_digits (Some d)).
  - rewrite signed_literal_unsigned by assumption.
    rewrite unsigned_literal_digits.
    unfold is_valid_int. apply Ascii.eqb_neq in Hm, Hp.
    rewrite Hm, Hp. cbn [orb].
    now destruct (is_digits (Some (String c d))).
Qed.

End Lexical.

(** X15.  The three lexical tests fail on the null pointer; on a string,
    [is_digits] holds of the non-empty runs of decimal digits,
    [is_hex_digits] of the non-empty runs of hexadecimal digits, and
    [is_valid_int] of the non-empty runs of decimal digits behind at most
    one sign. *)
Theorem lexical_tests :
  is_digits None = false /\ is_hex_digits None = false /\
  is_valid_int None = false /\
  (forall s, is_digits (Some s) = nonempty s && all_in decimal_digits s) /\
  (forall s, is_hex_digits (Some s) = nonempty s && all_in hex_digits s) /\
  (forall s, is_valid_int (Some s) = true <->
             exists d, (s = d \/ s = String "+" d \/ s = String "-" d) /\
                       nonempty d && all_in decimal_digits d = true).
Proof.
  do 3 (split; [reflexivity|]).
  split; [exact is_digits_literal|].
  split; [exact is_hex_digits_literal|].
  intros s. rewrite is_valid_int_literal. split.
  - destruct s as [|c d]; [discriminate|].
    destruct (Ascii.eqb_spec c "-") as [->|Hm];
      [|destruct (Ascii.eqb_spec c "+") as [->|Hp]].
    + change (signed_literal (String "-" d))
        with (option_map Z.opp (unsigned_literal d)).
      unfold unsigned_literal.
      destruct (nonempty d && all_in decimal_digits d) eqn:E;
        [|discriminate].
      intros _. exists d. tauto.
    + change (signed_literal (String "+" d)) with (unsigned_literal d).
      unfold unsigned_literal.
      destruct (nonempty d && all_in decimal_digits d) eqn:E;
        [|discriminate].
      intros _. exists d. tauto.
    + rewrite signed_literal_unsigned by assumption.
      unfold unsigned_literal.
      destruct (nonempty _ && all_in decimal_digits _) eqn:E;
        [|discriminate].
      intros _. exists (String c d). tauto.
  - intros (d & Hs & Hd).
    assert (unsigned_literal d = Some (decimal_value d)) as Hu
      by (unfold unsigned_literal; now rewrite Hd).
    destruct Hs as [->|[->| ->]].
    + destruct d as [|c d]; [discriminate|].
      assert (member c decimal_digits = true) as Hc.
      { rewrite all_in_cons in Hd. cbn [nonempty andb] in Hd.
        now apply andb_true_iff in Hd as (Hc & _). }
      rewrite <- isdigit_member in Hc.
      destruct (digit_char c Hc) as (_ & Hm & Hp & _).
      rewrite signed_literal_unsigned by assumption. now rewrite Hu.
    + change (signed_literal (String "+" d)) with (unsigned_literal d).
      now rewrite Hu.
    + change (signed_literal (String "-" d))
        with (option_map Z.opp (unsigned_literal d)).
      now rewrite Hu.
Qed.

(** X16.  Where [long] has 32 bits, a run of decimal digits that denotes
    more than [2^32 - 1] is taken by [parse_uint32_in_range] for
    [2^32 - 1]: with [max = 2^32 - 1] and [min] in the type the parser
    succeeds and writes [2^32 - 1]. *)
Theorem uint32_saturates_on_short_long :
  forall (dm : data_model) (s : string) min out,
    LONG_BITS dm = 32 ->
    unsigned_literal s <> None -> decimal_value s > UINT32_MAX ->
    min <= UINT32_MAX ->
    parse_uint32_in_range dm (Some s) min UINT32_MAX out
    = (true, store out UINT32_MAX).
Proof.
  intros dm s min out Hbits Hlit Hv Hmin.
  rewrite uint32_reads.
  rewrite unsigned_literal_digits in *.
  destruct (is_digits (Some s)); [|congruence]. cbv zeta.
  assert (ULONG_MAX dm = UINT32_MAX) as ->
    by (unfold ULONG_MAX; now rewrite Hbits).
  rewrite Z.min_r by lia.
  unfold within. rewrite Z.leb_refl, andb_true_r.
  replace (min <=? UINT32_MAX) with true by lia.
  now rewrite to_unsigned_small by (unfold UINT32_MAX; lia).
Qed.

Lemma uint32_saturates_on_short_long_witness :
  parse_uint32_in_range LLP64 (Some "99999999999") 0 UINT32_MAX (Some 0)
  = (true, Some UINT32_MAX).
Proof.
  apply (uint32_saturates_on_short_long LLP64 "99999999999" 0 (Some 0)).
  - reflexivity.
  - discriminate.
  - reflexivity.
  - unfold UINT32_MAX. lia.
Defined.

(** X17.  [parse_float_in_range] does no lexical test of its own, and
    [strtof] skips white space: a white-space character in front of the
    argument changes neither the verdict nor the value written. *)
Theorem float_ignores_leading_space :
  forall (ws : ascii) (s : string) min max out,
    isspace ws = true ->
    parse_float_in_range (Some (String ws s)) min max out =
    parse_float_in_range (Some s) min max out.
Proof.
  intros ws s min max out Hws.
  unfold parse_float_in_range, strtof.
  cbn [skip_space]. rewrite Hws.
  destruct s as [|c s]; [reflexivity|].
  destruct (scan_sign (skip_space (String c s))) as [neg t].
  now destruct (first_of _ _) as [[val endptr]|].
Qed.

Lemma float_ignores_leading_space_witness :
  parse_float_in_range (Some (String " " "-1.5e3"))
    (S754_infinity true) (S754_zero false) (Some S754_nan) =
  parse_float_in_range (Some "-1.5e3")
    (S754_infinity true) (S754_zero false) (Some S754_nan).
Proof.
  apply (float_ignores_leading_space " " "-1.5e3"). reflexivity.
Defined.
